(** * mageconfig: the value-resolution engine of github.com/grffio/mageconfig

    A shallow embedding of the Go package [mageconfig] (the loader with
    required/depends validation, its helpers in the utilities file, and the
    earlier loader kept in [mageconfig.go]) together with the properties of
    the resolution pipeline: precedence of the four sources, set tracking,
    validation, the configuration-file parser, the argument scanner and the
    conversion of mapping fields.

    Go strings are byte strings; they are modelled by [string], one [ascii]
    per byte.  A Go call can return normally, return an error value, or
    panic; [result] keeps the three apart. *)

From stdpp Require Import gmap strings list fin_maps.
From Stdlib Require Import ZArith Ascii String.

Local Open Scope string_scope.
Local Open Scope Z_scope.

(** ** The subset of Go's [strings] package used by the loader *)

Module GoStrings.

Definition byte_eqb (a b : ascii) : bool := Ascii.eqb a b.

Definition len (s : string) : Z := Z.of_nat (String.length s).

(** [strings.HasPrefix]. *)
Fixpoint HasPrefix (s prefix : string) {struct prefix} : bool :=
  match prefix with
  | EmptyString => true
  | String p prefix' =>
      match s with
      | EmptyString => false
      | String c s' => byte_eqb c p && HasPrefix s' prefix'
      end
  end.

(** [strings.Index]: the byte offset of the first occurrence of [substr],
    or [-1]. *)
Fixpoint Index (s substr : string) : Z :=
  if HasPrefix s substr then 0
  else match s with
       | EmptyString => -1
       | String _ s' => let r := Index s' substr in
                        if r <? 0 then -1 else r + 1
       end.

Fixpoint containsByte (cutset : string) (c : ascii) : bool :=
  match cutset with
  | EmptyString => false
  | String d cutset' => byte_eqb c d || containsByte cutset' c
  end.

(** [strings.TrimLeft] for a cutset of one-byte characters. *)
Fixpoint TrimLeft (s cutset : string) : string :=
  match s with
  | EmptyString => EmptyString
  | String c s' => if containsByte cutset c then TrimLeft s' cutset else s
  end.

(** The shared loop of [strings.Split] and [strings.SplitN] for a
    non-empty separator.  [budget] is the number of cuts still allowed
    ([None]: no limit), [skip] the number of separator bytes still to be
    dropped after a cut, [cur] the piece being collected. *)
Fixpoint genSplit (sep s : string) (skip : nat) (budget : option nat)
         (cur : string) : list string :=
  match s with
  | EmptyString => [cur]
  | String c s' =>
      match skip with
      | S k => genSplit sep s' k budget cur
      | O =>
          match budget with
          | Some O => [cur +:+ s]
          | _ =>
              if HasPrefix s sep
              then cur :: genSplit sep s' (Nat.pred (String.length sep))
                                   (Nat.pred <$> budget) EmptyString
              else genSplit sep s' O budget (cur +:+ String c EmptyString)
          end
      end
  end.

(** [strings.Split(s, sep)], [sep] non-empty. *)
Definition Split (s sep : string) : list string :=
  genSplit sep s O None EmptyString.

(** [strings.SplitN(s, sep, n)] for [n > 0], [sep] non-empty: at most [n]
    pieces, the last one being the unsplit remainder. *)
Definition SplitN (s sep : string) (n : nat) : list string :=
  genSplit sep s O (Some (Nat.pred n)) EmptyString.

(** The runes for which [unicode.IsSpace] holds, as UTF-8 byte sequences.
    One byte: tab, line feed, vertical tab, form feed, carriage return,
    space.  Two bytes: U+0085, U+00A0.  Three bytes: U+1680,
    U+2000..U+200A, U+2028, U+2029, U+202F, U+205F, U+3000. *)
Definition isSpace1 (c : ascii) : bool :=
  let n := nat_of_ascii c in
  ((9 <=? n) && (n <=? 13))%nat || (n =? 32)%nat.

Definition isSpace2 (c1 c2 : ascii) : bool :=
  let a := nat_of_ascii c1 in
  let b := nat_of_ascii c2 in
  ((a =? 194) && ((b =? 133) || (b =? 160)))%nat.

Definition isSpace3 (c1 c2 c3 : ascii) : bool :=
  let a := nat_of_ascii c1 in
  let b := nat_of_ascii c2 in
  let c := nat_of_ascii c3 in
  (((a =? 225) && (b =? 154) && (c =? 128))
   || ((a =? 226) && (b =? 128)
       && (((128 <=? c) && (c <=? 138)) || (c =? 168) || (c =? 169)
           || (c =? 175)))
   || ((a =? 226) && (b =? 129) && (c =? 159))
   || ((a =? 227) && (b =? 128) && (c =? 128)))%nat.

(** Drop the white-space runes at the front of a byte list.  With
    [rev = false] the list is read forwards; with [rev = true] it is a
    reversed string, so that multi-byte runes appear last byte first. *)
Fixpoint dropSpace (rev : bool) (l : list ascii) : list ascii :=
  match l with
  | [] => []
  | c1 :: l1 =>
      if isSpace1 c1 then dropSpace rev l1
      else match l1 with
           | [] => l
           | c2 :: l2 =>
               if (if rev then isSpace2 c2 c1 else isSpace2 c1 c2)
               then dropSpace rev l2
               else match l2 with
                    | [] => l
                    | c3 :: l3 =>
                        if (if rev then isSpace3 c3 c2 c1
                            else isSpace3 c1 c2 c3)
                        then dropSpace rev l3
                        else l
                    end
           end
  end.

(** [strings.TrimSpace]: leading and trailing white space removed. *)
Definition TrimSpace (s : string) : string :=
  string_of_list_ascii
    (List.rev (dropSpace true (List.rev
       (dropSpace false (list_ascii_of_string s))))).

Definition lowerByte (c : ascii) : ascii :=
  let n := nat_of_ascii c in
  if ((65 <=? n) && (n <=? 90))%nat then ascii_of_nat (n + 32) else c.

(** [strings.ToLower] on ASCII text (Go identifiers made of ASCII
    letters, digits and underscores); other bytes are kept. *)
Fixpoint ToLower (s : string) : string :=
  match s with
  | EmptyString => EmptyString
  | String c s' => String (lowerByte c) (ToLower s')
  end.

Fixpoint take (n : nat) (s : string) : string :=
  match n, s with
  | S k, String c s' => String c (take k s')
  | _, _ => EmptyString
  end.

Fixpoint drop (n : nat) (s : string) : string :=
  match n, s with
  | S k, String _ s' => drop k s'
  | _, _ => s
  end.

(** [s[i] == c], false when [i] is out of range (the callers guard the
    index). *)
Definition byteIs (s : string) (i : Z) (c : ascii) : bool :=
  (0 <=? i) &&
  match String.get (Z.to_nat i) s with
  | Some d => byte_eqb d c
  | None => false
  end.

End GoStrings.

Import GoStrings.

(** ** Outcomes of Go calls *)

(** The two kinds of [strconv.NumError]. *)
Inductive numKind := ErrSyntax | ErrRange.

(** Errors of the operating system as the loader tells them apart:
    [errors.Is(err, os.ErrNotExist)] or anything else. *)
Inductive oserror :=
| ErrNotExist
| ErrOther (msg : string).

(** The error values that reach the caller of [Load]: the errors of
    [strconv] and [time], [unsupported type], [invalid map default value]
    with the pair it names, [parse field] around another error,
    [ErrRequiredNotSet] and [ErrDependsNotSet] with the name they are
    wrapped with, [config must be a pointer to a struct], and the errors of
    [os.Open] and of the scanner. *)
Inductive error :=
| NumError (fn num : string) (kind : numKind)
| TimeError (fn text : string)
| UnsupportedType
| InvalidMapValue (pair : string)
| ParseField (e : error)
| ErrRequiredNotSet (field : string)
| ErrDependsNotSet (field : string)
| NotPointerToStruct
| FileError (e : oserror).

(** A call returns a value, returns an error, or panics. *)
Inductive result (A : Type) :=
| Ok (a : A)
| Err (e : error)
| Panic.

Arguments Ok {A} a.
Arguments Err {A} e.
Arguments Panic {A}.

(** Sequencing stops at the first error or panic. *)
#[global] Instance result_bind : MBind result := fun A B k r =>
  match r with
  | Ok a => k a
  | Err e => Err e
  | Panic => Panic
  end.

#[global] Instance result_fmap : FMap result := fun A B f r =>
  match r with
  | Ok a => Ok (f a)
  | Err e => Err e
  | Panic => Panic
  end.

(** A slice expression [s[lo:hi]] on a string: a run-time panic unless
    [0 <= lo <= hi <= len(s)]. *)
Definition sliceExpr (s : string) (lo hi : Z) : result string :=
  if (0 <=? lo) && (lo <=? hi) && (hi <=? len s)
  then Ok (take (Z.to_nat (hi - lo)) (drop (Z.to_nat lo) s))
  else Panic.

(** ** The subset of [strconv] used by the loader *)

Module Strconv.

(** [strconv.ParseBool]. *)
Definition ParseBool (str : string) : result bool :=
  if bool_decide (str ∈ ["1"; "t"; "T"; "TRUE"; "true"; "True"]) then Ok true
  else if bool_decide (str ∈ ["0"; "f"; "F"; "FALSE"; "false"; "False"])
  then Ok false
  else Err (NumError "ParseBool" str ErrSyntax).

Definition maxUint64 : Z := 2 ^ 64 - 1.

(** The digit loop of [ParseUint] for base 10 and 64 bits: [n] is the
    number read so far. *)
Fixpoint digits (s : string) (n : Z) : numKind + Z :=
  match s with
  | EmptyString => inr n
  | String c s' =>
      let d := Z.of_nat (nat_of_ascii c) - 48 in
      if (0 <=? d) && (d <=? 9) then
        if maxUint64 / 10 + 1 <=? n then inl ErrRange
        else let n1 := n * 10 + d in
             if maxUint64 <? n1 then inl ErrRange else digits s' n1
      else inl ErrSyntax
  end.

(** [strconv.ParseUint(s, 10, 64)]. *)
Definition ParseUint (s : string) : result Z :=
  match s with
  | EmptyString => Err (NumError "ParseUint" s ErrSyntax)
  | _ => match digits s 0 with
         | inr n => Ok n
         | inl k => Err (NumError "ParseUint" s k)
         end
  end.

(** [strconv.ParseInt(s, 10, 64)]: an optional sign, then [ParseUint] and
    the range check against [1 << 63]. *)
Definition ParseInt (s0 : string) : result Z :=
  match s0 with
  | EmptyString => Err (NumError "ParseInt" s0 ErrSyntax)
  | String c rest =>
      let neg := byte_eqb c "-" in
      let s := if byte_eqb c "+" || neg then rest else s0 in
      match s with
      | EmptyString => Err (NumError "ParseInt" s0 ErrSyntax)
      | _ =>
          match digits s 0 with
          | inl ErrSyntax => Err (NumError "ParseInt" s0 ErrSyntax)
          | inl ErrRange => Err (NumError "ParseInt" s0 ErrRange)
          | inr un =>
              let cutoff := 2 ^ 63 in
              if negb neg && (cutoff <=? un)
              then Err (NumError "ParseInt" s0 ErrRange)
              else if neg && (cutoff <? un)
                   then Err (NumError "ParseInt" s0 ErrRange)
                   else Ok (if neg then - un else un)
          end
      end
  end.

End Strconv.

(** The parsers of the Go standard library that the loader calls and whose
    grammar is not spelled out here: [strconv.ParseFloat(s, 64)],
    [time.ParseDuration(s)] and [time.Parse(time.RFC3339, s)], with the types
    of the values they return. *)
Class External := {
  float64 : Type;
  duration : Type;
  time : Type;
  ParseFloat : string -> error + float64;
  ParseDuration : string -> error + duration;
  ParseTime : string -> error + time
}.

Definition ofSum {A : Type} (r : error + A) : result A :=
  match r with
  | inl e => Err e
  | inr a => Ok a
  end.

(** ** Destination records *)

(** The types a field can have.  [TMap e] is [map[string]e]; [TOther]
    stands for every type whose kind has no conversion rule (byte, struct,
    pointer, ...). *)
Inductive gotype :=
| TBool | TInt | TInt32 | TInt64 | TUint | TUint32 | TUint64
| TFloat32 | TFloat64 | TString | TDuration | TTime
| TSlice (elem : gotype)
| TMap (elem : gotype)
| TOther.

#[global] Instance gotype_eq_dec : EqDecision gotype.
Proof. solve_decision. Defined.

(** [reflect.StructField]: the name, the type and the tag of a field.  The
    tag is read through [Tag.Get] only, so it is kept as the map from tag
    keys to their values. *)
Record StructField := {
  Name : string;
  Typ : gotype;
  Tag : gmap string string
}.

(** [field.Tag.Get(key)]: the empty string when the key is absent. *)
Definition Tag_Get (field : StructField) (key : string) : string :=
  default "" (Tag field !! key).

(** Tag constants used for struct field tags. *)
Definition tagArg : string := "arg".
Definition tagEnv : string := "env".
Definition tagFile : string := "file".
Definition tagDefault : string := "default".
Definition tagDesc : string := "desc".
Definition tagDepends : string := "depends".
Definition tagRequired : string := "required".
Definition argPrefix : string := "-".
Definition sliceSeparator : string := ",".
Definition kvSeparator : string := ":".

(** List of default Mage commands. *)
Definition defaultMageCommands : list string := ["-l"; "-h"].

(** The [isSet] map of [Load].  Every entry points to a boolean of its own,
    so the map from names to booleans is all there is to it. *)
Abbreviation IsSet := (gmap string bool).

Section Model.
Context `{External}.

(** What [parseStringToType] returns: a value of one of seven dynamic
    types. *)
Inductive scalar :=
| VBool (b : bool)
| VInt (n : Z)
| VUint (n : Z)
| VFloat (x : float64)
| VString (s : string)
| VDuration (d : duration)
| VTime (t : time).

(** [reflect.Value.Type] of such a value. *)
Definition typeOf (v : scalar) : gotype :=
  match v with
  | VBool _ => TBool
  | VInt _ => TInt
  | VUint _ => TUint
  | VFloat _ => TFloat64
  | VString _ => TString
  | VDuration _ => TDuration
  | VTime _ => TTime
  end.

(** The content of a field of the destination record. *)
Inductive value :=
| Scalar (v : scalar)
| SliceOf (elems : list scalar)
| MapOf (m : gmap string scalar).

(** The destination record behind the pointer handed to [Load]: its fields
    in declared order, each with its current content. *)
#[local] Abbreviation Struct := (list (StructField * value)).

(** *** The utilities *)

(** [getTagOrDefault]: the value of the tag, or the field name in lower case
    when the tag is absent. *)
Definition getTagOrDefault (field : StructField) (tag : string) : string :=
  let value := Tag_Get field tag in
  if decide (value = "") then ToLower (Name field) else value.

(** How far a loop over the fields got. *)
Inductive status :=
| Done
| Failed (e : error)
| Panicked.

(** [setFields]: apply [setValue] to each field in turn, stopping at the
    first error.  [setValue] receives the field, the handle on its content
    and the set-tracking map its closure captured; it returns the new content
    and the new map.  Fields after a failing one are left as they were. *)
Fixpoint setFields
    (setValue : StructField -> value -> IsSet -> result (value * IsSet))
    (cfg : Struct) (isSet : IsSet) : Struct * IsSet * status :=
  match cfg with
  | [] => ([], isSet, Done)
  | (field, v) :: rest =>
      match setValue field v isSet with
      | Ok (v', isSet') =>
          let '(rest', isSet'', st) := setFields setValue rest isSet' in
          ((field, v') :: rest', isSet'', st)
      | Err e => (cfg, isSet, Failed e)
      | Panic => (cfg, isSet, Panicked)
      end
  end.

(** [parseStringToType]. *)
Definition parseStringToType (s : string) (t : gotype) : result scalar :=
  match t with
  | TDuration => VDuration <$> ofSum (ParseDuration s)
  | TTime => VTime <$> ofSum (ParseTime s)
  | TBool => VBool <$> Strconv.ParseBool s
  | TInt | TInt32 | TInt64 => VInt <$> Strconv.ParseInt s
  | TUint | TUint32 | TUint64 => VUint <$> Strconv.ParseUint s
  | TFloat32 | TFloat64 => VFloat <$> ofSum (ParseFloat s)
  | TString => Ok (VString s)
  | _ => Err UnsupportedType
  end.

(** [reflect.Value.Set], [Index(i).Set] and [SetMapIndex] panic unless the
    type of the value is the type of the place it is stored in. *)
Definition assignable (target : gotype) (v : scalar) : result scalar :=
  if decide (typeOf v = target) then Ok v else Panic.

(** The loop of the slice case of [setFieldByKind]. *)
Fixpoint sliceLoop (elem : gotype) (elems : list string) : result (list scalar) :=
  match elems with
  | [] => Ok []
  | e :: rest =>
      v ← parseStringToType (TrimSpace e) elem;
      v ← assignable elem v;
      vs ← sliceLoop elem rest;
      Ok (v :: vs)
  end.

(** The loop of the map case of [setFieldByKind]. *)
Fixpoint mapLoop (elem : gotype) (elems : list string)
    (mapValue : gmap string scalar) : result (gmap string scalar) :=
  match elems with
  | [] => Ok mapValue
  | pair_ :: rest =>
      match SplitN pair_ kvSeparator 2 with
      | [k; vtext] =>
          v ← parseStringToType (TrimSpace vtext) elem;
          v ← assignable elem v;
          mapLoop elem rest (<[TrimSpace k := v]> mapValue)
      | _ => Err (InvalidMapValue pair_)
      end
  end.

(** [setFieldByKind]: the content that [value.Set] stores in the field, by
    the kind of the field.  Nothing is stored on an error or a panic. *)
Definition setFieldByKind (field : StructField) (strVal : string) : result value :=
  match Typ field with
  | TSlice elem => SliceOf <$> sliceLoop elem (Split strVal sliceSeparator)
  | TMap elem => MapOf <$> mapLoop elem (Split strVal sliceSeparator) ∅
  | t =>
      match parseStringToType strVal t with
      | Ok v => Scalar <$> assignable t v
      | Err e => Err (ParseField e)
      | Panic => Panic
      end
  end.

End Model.

Abbreviation Struct := (list (StructField * value)).

(** ** The process around the loader *)

(** A file once opened: the lines the scanner yields, and the error the
    scanner ends with, if any (a read failure, a line that is too long). *)
Record File := {
  lines : list string;
  scanErr : option oserror
}.

(** What the loader reads from its process: [os.Args], [os.LookupEnv] and
    [os.Open]. *)
Record Process := {
  Args : list string;
  LookupEnv : gmap string string;
  Open : string -> oserror + File
}.

(** The package variables [isLoaded] and [once]. *)
Record Globals := {
  isLoaded : bool;
  onceDone : bool
}.

(** [once.Do(func() { isLoaded = true })]. *)
Definition once_Do (g : Globals) : Globals :=
  if onceDone g then g else {| isLoaded := true; onceDone := true |}.

(** [contains]: does the string slice hold the string? *)
Fixpoint contains (s : list string) (str : string) : bool :=
  match s with
  | [] => false
  | v :: s' => if decide (v = str) then true else contains s' str
  end.

(** [isHelpRequested]: [-help] or [--help] among the arguments. *)
Fixpoint isHelpRequested (args : list string) : bool :=
  match args with
  | [] => false
  | arg :: args' =>
      if decide (arg = "-help") then true
      else if decide (arg = "--help") then true
      else isHelpRequested args'
  end.

(** The loop at the head of [Load]: is one of the default Mage commands
    among the arguments? *)
Fixpoint mageCommandGiven (args : list string) : bool :=
  match args with
  | [] => false
  | arg :: args' =>
      if HasPrefix arg argPrefix && contains defaultMageCommands arg then true
      else mageCommandGiven args'
  end.

(** The loop of [getArgValue] from position [i] on; [rest] is [os.Args[i:]]. *)
Fixpoint scanArgs (argName : string) (isBool : bool) (rest : list string) : string :=
  match rest with
  | [] => ""
  | tok :: rest' =>
      let arg := TrimLeft tok argPrefix in
      let equalIndex := Index arg "=" in
      if 0 <? equalIndex then
        let key := take (Z.to_nat equalIndex) arg in
        let value := drop (Z.to_nat (equalIndex + 1)) arg in
        if decide (key = argName) then value
        else scanArgs argName isBool rest'
      else if decide (arg = argName) then
        match rest' with
        | next :: _ =>
            if negb (HasPrefix next argPrefix) then next
            else if isBool then "true"
            else scanArgs argName isBool rest'
        | [] =>
            if isBool then "true" else scanArgs argName isBool rest'
        end
      else scanArgs argName isBool rest'
  end.

(** [getArgValue]: the scan starts at [os.Args[1]]. *)
Definition getArgValue (args : list string) (argName : string) (isBool : bool) : string :=
  scanArgs argName isBool (tail args).

(** The quote characters the file pass strips. *)
Definition dquote : ascii := ascii_of_nat 34.
Definition squote : ascii := ascii_of_nat 39.

(** The quote stripping in the scanning loop of [loadFromFile], on a trimmed
    value. *)
Definition stripExpr (value : string) : result string :=
  if (0 <? len value)
     && (byteIs value 0 dquote && byteIs value (len value - 1) dquote
         || byteIs value 0 squote && byteIs value (len value - 1) squote)
  then sliceExpr value 1 (len value - 1)
  else Ok value.

(** The body of the scanning loop of [loadFromFile]: one line into the map
    [fileContent]. *)
Definition scanLine (line : string) (fileContent : gmap string string)
    : result (gmap string string) :=
  match SplitN line kvSeparator 2 with
  | [part0; part1] =>
      let key := TrimSpace part0 in
      let value := TrimSpace part1 in
      value ← stripExpr value;
      Ok (<[key := value]> fileContent)
  | _ => Ok fileContent
  end.

(** The scanning loop of [loadFromFile]. *)
Fixpoint scanLines (ls : list string) (fileContent : gmap string string)
    : result (gmap string string) :=
  match ls with
  | [] => Ok fileContent
  | line :: ls' =>
      fileContent ← scanLine line fileContent;
      scanLines ls' fileContent
  end.

Section Loader.
Context `{External}.

(** [*isSet[name] = true]: a nil-pointer panic when the map has no entry. *)
Definition markSet (isSet : IsSet) (name : string) : result IsSet :=
  match isSet !! name with
  | Some _ => Ok (<[name := true]> isSet)
  | None => Panic
  end.

(** [initializeIsSet]: an entry [false] for every field. *)
Fixpoint initializeIsSet (cfg : Struct) (isSet : IsSet) : IsSet :=
  match cfg with
  | [] => isSet
  | (field, _) :: rest => initializeIsSet rest (<[Name field := false]> isSet)
  end.

(** The closure of [setDefault]. *)
Definition setDefault_field (field : StructField) (v : value) (isSet : IsSet)
    : result (value * IsSet) :=
  let defaultValue := Tag_Get field tagDefault in
  if decide (defaultValue = "") then Ok (v, isSet)
  else
    v' ← setFieldByKind field defaultValue;
    isSet' ← markSet isSet (Name field);
    Ok (v', isSet').

(** [setDefault]. *)
Definition setDefault (cfg : Struct) (isSet : IsSet) : Struct * IsSet * status :=
  setFields setDefault_field cfg isSet.

(** The closure of [loadFromFile]. *)
Definition loadFromFile_field (fileContent : gmap string string)
    (field : StructField) (v : value) (isSet : IsSet) : result (value * IsSet) :=
  let fileName := Tag_Get field tagFile in
  if decide (fileName = "") then Ok (v, isSet)
  else
    match fileContent !! fileName with
    | None => Ok (v, isSet)
    | Some fileValue =>
        v' ← setFieldByKind field fileValue;
        isSet' ← markSet isSet (Name field);
        Ok (v', isSet')
    end.

(** [loadFromFile]. *)
Definition loadFromFile (p : Process) (file : string) (cfg : Struct) (isSet : IsSet)
    : Struct * IsSet * status :=
  if decide (file = "") then (cfg, isSet, Done)
  else
    match Open p file with
    | inl err =>
        match err with
        | ErrNotExist => (cfg, isSet, Done)
        | _ => (cfg, isSet, Failed (FileError err))
        end
    | inr f =>
        match scanLines (lines f) ∅ with
        | Ok fileContent =>
            match scanErr f with
            | Some err => (cfg, isSet, Failed (FileError err))
            | None => setFields (loadFromFile_field fileContent) cfg isSet
            end
        | Err e => (cfg, isSet, Failed e)
        | Panic => (cfg, isSet, Panicked)
        end
    end.

(** The closure of [loadFromEnv]. *)
Definition loadFromEnv_field (p : Process)
    (field : StructField) (v : value) (isSet : IsSet) : result (value * IsSet) :=
  let envName := Tag_Get field tagEnv in
  if decide (envName = "") then Ok (v, isSet)
  else
    match LookupEnv p !! envName with
    | None => Ok (v, isSet)
    | Some envValue =>
        v' ← setFieldByKind field envValue;
        isSet' ← markSet isSet (Name field);
        Ok (v', isSet')
    end.

(** [loadFromEnv]. *)
Definition loadFromEnv (p : Process) (cfg : Struct) (isSet : IsSet)
    : Struct * IsSet * status :=
  setFields (loadFromEnv_field p) cfg isSet.

(** The closure of [loadFromArgs]. *)
Definition loadFromArgs_field (p : Process)
    (field : StructField) (v : value) (isSet : IsSet) : result (value * IsSet) :=
  let argName := getTagOrDefault field tagArg in
  let argValue := getArgValue (Args p) argName (bool_decide (Typ field = TBool)) in
  if decide (argValue = "") then Ok (v, isSet)
  else
    v' ← setFieldByKind field argValue;
    isSet' ← markSet isSet (Name field);
    Ok (v', isSet').

(** [loadFromArgs]. *)
Definition loadFromArgs (p : Process) (cfg : Struct) (isSet : IsSet)
    : Struct * IsSet * status :=
  setFields (loadFromArgs_field p) cfg isSet.

(** Is the entry of [name] nil or false? *)
Definition notSet (isSet : IsSet) (name : string) : bool :=
  match isSet !! name with
  | Some true => false
  | _ => true
  end.

(** The loop over the dependencies of one field in
    [checkRequiredAndDepends]. *)
Fixpoint checkDepends (depends : list string) (isSet : IsSet) : option error :=
  match depends with
  | [] => None
  | depend :: rest =>
      if notSet isSet depend then Some (ErrDependsNotSet depend)
      else checkDepends rest isSet
  end.

(** [checkRequiredAndDepends]: [None] is the nil error. *)
Fixpoint checkRequiredAndDepends (fields : list StructField) (isSet : IsSet)
    : option error :=
  match fields with
  | [] => None
  | field :: rest =>
      let required := Tag_Get field tagRequired in
      if bool_decide (required = "true") && notSet isSet (Name field)
      then Some (ErrRequiredNotSet (Name field))
      else
        let dependsStr := Tag_Get field tagDepends in
        match (if decide (dependsStr = "") then None
               else checkDepends (Split dependsStr ",") isSet) with
        | Some e => Some e
        | None => checkRequiredAndDepends rest isSet
        end
  end.

(** One pass after another, each one only when the one before is [Done]. *)
Definition andThen (r : Struct * IsSet * status)
    (next : Struct -> IsSet -> Struct * IsSet * status) : Struct * IsSet * status :=
  match r with
  | (cfg, isSet, Done) => next cfg isSet
  | _ => r
  end.

(** The four passes of [Load], from the creation of [isSet] to the return of
    [loadFromArgs]. *)
Definition loadPasses (p : Process) (cfg : Struct) (file : string)
    : Struct * IsSet * status :=
  let isSet := initializeIsSet cfg ∅ in
  andThen (andThen (andThen (setDefault cfg isSet)
                            (loadFromFile p file))
                   (loadFromEnv p))
          (loadFromArgs p).

(** The argument of [Load], by what [reflect.TypeOf] makes of it. *)
Inductive Config :=
| PtrStruct (cfg : Struct)
| NilConfig
| ElemStruct
| OtherConfig.

(** How a call of [Load] ends: it returns (with an error or nil, the
    destination and the package variables as it leaves them), the process
    exits, or the call panics. *)
Inductive Outcome :=
| Return (err : option error) (cfg : Config) (g : Globals)
| Exit (code : Z)
| Panics.

(** [printUsage(reflect.TypeOf(cfg).Elem()); os.Exit(0)].  The text printed
    is not modelled.  [Elem] and [NumField] panic on an argument that has no
    struct behind it. *)
Definition printUsageAndExit (cfg : Config) : Outcome :=
  match cfg with
  | PtrStruct _ | ElemStruct => Exit 0
  | NilConfig | OtherConfig => Panics
  end.

(** [Load]. *)
Definition Load (p : Process) (g : Globals) (cfg : Config) (file : string) : Outcome :=
  if isHelpRequested (Args p) then printUsageAndExit cfg
  else if isLoaded g then Return None cfg g
  else if mageCommandGiven (Args p) then Return None cfg g
  else
    match cfg with
    | NilConfig => Panics
    | ElemStruct | OtherConfig => Return (Some NotPointerToStruct) cfg g
    | PtrStruct s =>
        match loadPasses p s file with
        | (s', isSet, Done) =>
            Return (checkRequiredAndDepends (fst <$> s') isSet)
                   (PtrStruct s') (once_Do g)
        | (s', _, Failed e) => Return (Some e) (PtrStruct s') g
        | (_, _, Panicked) => Panics
        end
    end.

End Loader.

(** List of default Mage options. *)
Definition defaultMageOptions : list string := ["-h"; "-t"; "-v"].

(** The loop of [DropArgsAfterTarget]: [os.Args[:i]] for the first [i] whose
    argument begins with the prefix and is none of [options], or all of
    [os.Args] when there is no such [i]. *)
Fixpoint dropAfterTarget (options args : list string) : list string :=
  match args with
  | [] => []
  | arg :: rest =>
      if HasPrefix arg argPrefix then
        if contains options arg then arg :: dropAfterTarget options rest
        else []
      else arg :: dropAfterTarget options rest
  end.

(** [DropArgsAfterTarget]: the process with its new [os.Args]. *)
Definition DropArgsAfterTarget (p : Process) (g : Globals) : Process :=
  if negb (isLoaded g) then p
  else {| Args := dropAfterTarget defaultMageOptions (Args p);
          LookupEnv := LookupEnv p;
          Open := Open p |}.

(** ** The earlier loader ([mageconfig.go])

    It shares the file, environment and argument passes and the utilities
    with the loader above.  Its defaults pass does not touch the
    set-tracking map, it has no dependency check, and it keeps no package
    state. *)

Module Legacy.
Section Loader.
Context `{External}.

(** The closure of the earlier [setDefault]. *)
Definition setDefault_field (field : StructField) (v : value) (isSet : IsSet)
    : result (value * IsSet) :=
  let defaultValue := Tag_Get field tagDefault in
  if decide (defaultValue = "") then Ok (v, isSet)
  else
    v' ← setFieldByKind field defaultValue;
    Ok (v', isSet).

(** The earlier [setDefault]. *)
Definition setDefault (cfg : Struct) (isSet : IsSet) : Struct * IsSet * status :=
  setFields setDefault_field cfg isSet.

(** [checkRequired]. *)
Fixpoint checkRequired (fields : list StructField) (isSet : IsSet) : option error :=
  match fields with
  | [] => None
  | field :: rest =>
      let required := Tag_Get field tagRequired in
      if bool_decide (required = "true") && notSet isSet (Name field)
      then Some (ErrRequiredNotSet (Name field))
      else checkRequired rest isSet
  end.

(** The four passes of the earlier [Load]. *)
Definition loadPasses (p : Process) (cfg : Struct) (file : string)
    : Struct * IsSet * status :=
  let isSet := initializeIsSet cfg ∅ in
  andThen (andThen (andThen (setDefault cfg isSet)
                            (loadFromFile p file))
                   (loadFromEnv p))
          (loadFromArgs p).

(** The earlier [Load]. *)
Definition Load (p : Process) (g : Globals) (cfg : Config) (file : string) : Outcome :=
  if isHelpRequested (Args p) then printUsageAndExit cfg
  else
    match cfg with
    | NilConfig => Panics
    | ElemStruct | OtherConfig => Return (Some NotPointerToStruct) cfg g
    | PtrStruct s =>
        match loadPasses p s file with
        | (s', isSet, Done) =>
            Return (checkRequired (fst <$> s') isSet) (PtrStruct s') g
        | (s', _, Failed e) => Return (Some e) (PtrStruct s') g
        | (_, _, Panicked) => Panics
        end
    end.

End Loader.

(** The earlier [DropArgsAfterTarget]: its own list of options, and no
    look at the package state. *)
Definition DropArgsAfterTarget (p : Process) : Process :=
  {| Args := dropAfterTarget ["-l"; "-h"; "-t"; "-v"] (Args p);
     LookupEnv := LookupEnv p;
     Open := Open p |}.

End Legacy.

(** ** What each source offers a field

    The candidate string of a field in each pass, read off the closures
    above, and the candidate of the pass that runs last among those that
    have one. *)

Section Candidates.
Context `{External}.

Definition defaultCandidate (field : StructField) : option string :=
  let defaultValue := Tag_Get field tagDefault in
  if decide (defaultValue = "") then None else Some defaultValue.

Definition mapCandidate (content : gmap string string) (tag : string)
    (field : StructField) : option string :=
  let name := Tag_Get field tag in
  if decide (name = "") then None else content !! name.

(** The map the file pass looks fields up in: [None] when the pass does
    nothing (no path, or no such file) or does not get to the fields. *)
Definition fileContentOf (p : Process) (file : string) : option (gmap string string) :=
  if decide (file = "") then None
  else match Open p file with
       | inr f => match scanLines (lines f) ∅, scanErr f with
                  | Ok fileContent, None => Some fileContent
                  | _, _ => None
                  end
       | inl _ => None
       end.

Definition fileCandidate (p : Process) (file : string) (field : StructField)
    : option string :=
  fileContent ← fileContentOf p file;
  mapCandidate fileContent tagFile field.

Definition envCandidate (p : Process) (field : StructField) : option string :=
  mapCandidate (LookupEnv p) tagEnv field.

Definition argCandidate (p : Process) (field : StructField) : option string :=
  let argValue := getArgValue (Args p) (getTagOrDefault field tagArg)
                              (bool_decide (Typ field = TBool)) in
  if decide (argValue = "") then None else Some argValue.

(** Arguments before environment before file before default. *)
Definition winner (p : Process) (file : string) (field : StructField) : option string :=
  match argCandidate p field with
  | Some s => Some s
  | None =>
      match envCandidate p field with
      | Some s => Some s
      | None =>
          match fileCandidate p file field with
          | Some s => Some s
          | None => defaultCandidate field
          end
      end
  end.

(** The step every pass applies to a field, given the candidate of the
    pass: convert, store and mark, or leave the field alone. *)
Definition applyCandidate (cand : StructField -> option string)
    (field : StructField) (v : value) (isSet : IsSet) : result (value * IsSet) :=
  match cand field with
  | None => Ok (v, isSet)
  | Some s =>
      v' ← setFieldByKind field s;
      isSet' ← markSet isSet (Name field);
      Ok (v', isSet')
  end.

(** What a pass does to one field: the declaration stays, the content is
    the converted candidate, or the old content when there is none. *)
Definition fieldStep (cand : StructField -> option string)
    (before after : StructField * value) : Prop :=
  after.1 = before.1 /\
  match cand before.1 with
  | None => after.2 = before.2
  | Some s => setFieldByKind before.1 s = Ok after.2
  end.

(** Has some field called [name] a candidate? *)
Definition supplied (cand : StructField -> option string)
    (fields : list StructField) (name : string) : bool :=
  existsb (fun field => bool_decide (Name field = name)
                        && bool_decide (is_Some (cand field))) fields.

(** The content of a field from pass to pass. *)
Definition passStep (cand : StructField -> option string) (field : StructField)
    (before after : value) : Prop :=
  match cand field with
  | None => after = before
  | Some s => setFieldByKind field s = Ok after
  end.


(** All the violations the validation pass could report, in the order in
    which it looks for them: field by field, the required check first, then
    the dependencies from left to right. *)
Definition violationsOf (isSet : IsSet) (field : StructField) : list error :=
  (if bool_decide (Tag_Get field tagRequired = "true") && notSet isSet (Name field)
   then [ErrRequiredNotSet (Name field)] else [])
  ++ (if decide (Tag_Get field tagDepends = "") then []
      else ErrDependsNotSet <$>
             filter (λ d, notSet isSet d = true) (Split (Tag_Get field tagDepends) ",")).

Definition violations (fields : list StructField) (isSet : IsSet) : list error :=
  fields ≫= violationsOf isSet.

End Candidates.

(** ** Mapping fields in the words of the description

    A pair-token is well formed when it splits at its first colon into a key
    and a value text, and the trimmed value text converts to the element
    type; the entry it stands for has the trimmed text of the key as its key
    and the converted value as its value. *)

Section Mapping.
Context `{External}.

Definition pairOf (elem : gotype) (token : string) (kv : string * scalar) : Prop :=
  exists k vtext,
    SplitN token kvSeparator 2 = [k; vtext]
    /\ kv.1 = TrimSpace k
    /\ parseStringToType (TrimSpace vtext) elem = Ok kv.2
    /\ typeOf kv.2 = elem.

Definition wellFormedPair (elem : gotype) (token : string) : Prop :=
  exists kv, pairOf elem token kv.

(** The map of a list of entries, written in order. *)
Definition mapOfEntries (kvs : list (string * scalar)) : gmap string scalar :=
  foldl (λ m kv, <[kv.1 := kv.2]> m) ∅ kvs.

End Mapping.

(** ** The file format in the words of its description

    A line is split at its first colon; a line with no colon is skipped;
    both sides are trimmed; one layer of matching quotes around the value is
    removed; a later line with the same key replaces an earlier one. *)

Definition hasQuotes (q : ascii) (value : string) : bool :=
  (2 <=? len value) && byteIs value 0 q && byteIs value (len value - 1) q.

Definition stripQuotes (value : string) : string :=
  if hasQuotes dquote value || hasQuotes squote value
  then take (String.length value - 2) (drop 1 value)
  else value.

Definition firstColon (line : string) : option (string * string) :=
  let i := Index line ":" in
  if i <? 0 then None
  else Some (take (Z.to_nat i) line, drop (Z.to_nat i + 1) line).

Definition lineEntry (line : string) : option (string * string) :=
  '(k, v) ← firstColon line;
  Some (TrimSpace k, stripQuotes (TrimSpace v)).

Definition fileMap (ls : list string) : gmap string string :=
  foldl (λ m line, match lineEntry line with
                   | Some (k, v) => <[k := v]> m
                   | None => m
                   end) ∅ ls.

(** The value of the last line that has the key. *)
Definition lastValue (key : string) (ls : list string) : option string :=
  snd <$> last (filter (λ e, e.1 = key) (omap lineEntry ls)).

(** A value that is one quote character and nothing else. *)
Definition loneQuote (value : string) : bool :=
  bool_decide (value = String dquote "") || bool_decide (value = String squote "").

Definition loneQuoteLine (line : string) : bool :=
  match firstColon line with
  | Some (_, v) => loneQuote (TrimSpace v)
  | None => false
  end.

(** ** Argument tokens *)

(** [n] dashes. *)
Fixpoint dashes (n : nat) : string :=
  match n with
  | O => ""
  | S k => String "-" (dashes k)
  end.

(** Does the scan for [argName] stop to look at the token: is the text
    before its equals sign, or the whole token when it has none past its
    first byte, the name, leading dashes apart? *)
Definition matches (argName tok : string) : bool :=
  let arg := TrimLeft tok argPrefix in
  let equalIndex := Index arg "=" in
  if 0 <? equalIndex then bool_decide (take (Z.to_nat equalIndex) arg = argName)
  else bool_decide (arg = argName).

(** ** Closed examples

    The record of the package's own test and a process to run it in.  The
    examples use bool, int, string and map fields; the instance below serves
    them, with float, duration and time parsers that accept nothing. *)

#[global] Instance noFloatsNoTimes : External := {|
  float64 := Empty_set;
  duration := Empty_set;
  time := Empty_set;
  ParseFloat := λ s, inl (NumError "ParseFloat" s ErrSyntax);
  ParseDuration := λ s, inl (TimeError "ParseDuration" s);
  ParseTime := λ s, inl (TimeError "Parse" s)
|}.

Definition mkField (name : string) (t : gotype) (tags : list (string * string))
    : StructField :=
  {| Name := name; Typ := t; Tag := list_to_map tags |}.

Definition DField0 : StructField := mkField "DField0" TBool [("arg", "dfield0")].
Definition DField1 : StructField :=
  mkField "DField1" TBool [("arg", "dfield1"); ("depends", "Field1,DField0")].
Definition Field0 : StructField :=
  mkField "Field0" TBool [("arg", "field0"); ("default", "false")].
Definition Field1 : StructField :=
  mkField "Field1" TString [("arg", "field1"); ("default", "default1")].
Definition Field2 : StructField :=
  mkField "Field2" TInt [("arg", "field2"); ("default", "2")].
Definition Field3 : StructField :=
  mkField "Field3" TString [("env", "FIELD3"); ("default", "envDefault")].
Definition Field4 : StructField :=
  mkField "Field4" TString [("file", "field4"); ("default", "fileDefault")].
Definition Field5 : StructField :=
  mkField "Field5" TString [("file", "field5"); ("arg", "field5");
                            ("env", "FIELD5"); ("default", "allDefault")].
Definition Field6 : StructField :=
  mkField "Field6" TString [("file", "field6"); ("arg", "field6");
                            ("env", "FIELD6"); ("required", "true")].

Definition TestConfig_fields : list StructField :=
  [DField0; DField1; Field0; Field1; Field2; Field3; Field4; Field5; Field6].

(** The zero value of each field type of the examples. *)
Definition zeroOf (t : gotype) : value :=
  match t with
  | TBool => Scalar (VBool false)
  | TInt => Scalar (VInt 0)
  | TUint => Scalar (VUint 0)
  | TMap _ => MapOf ∅
  | TSlice _ => SliceOf []
  | _ => Scalar (VString "")
  end.

Definition zeroStruct (fields : list StructField) : Struct :=
  (λ f, (f, zeroOf (Typ f))) <$> fields.

Definition noFiles : string -> oserror + File := λ _, inl ErrNotExist.

Definition fresh : Globals := {| isLoaded := false; onceDone := false |}.

Definition testProcess (args : list string) (env : list (string * string))
    (open : string -> oserror + File) : Process :=
  {| Args := "cmd" :: args; LookupEnv := list_to_map env; Open := open |}.

Definition contents (s : Struct) : list value := snd <$> s.

(** A field wired to all four sources, each with a literal of its own. *)
Definition nameField : StructField :=
  mkField "Name" TString
    [("arg", "name"); ("env", "NAME"); ("file", "name"); ("default", "fromDefault")].

Definition nameStruct : Struct := [(nameField, Scalar (VString ""))].

Definition nameFile : string -> oserror + File := λ path,
  if decide (path = "mage.config")
  then inr {| lines := ["# settings"; "name: 'fromFile'"]; scanErr := None |}
  else inl ErrNotExist.

Definition wiredProcess (args : list string) : Process :=
  testProcess args [("NAME", "fromEnv")] nameFile.

Definition loaded : Globals := {| isLoaded := true; onceDone := true |}.


(** The runs of [TestLoad] used below. *)
Definition defaultsProcess : Process :=
  testProcess ["-dfield0=true"; "-field6=required"] [] noFiles.

Definition defaultsRun : Struct * IsSet * status :=
  loadPasses defaultsProcess (zeroStruct TestConfig_fields) "".

Definition dependsProcess : Process := testProcess ["-field6=required"] [] noFiles.

Definition dependsRun : Struct * IsSet * status :=
  loadPasses dependsProcess (zeroStruct TestConfig_fields) "".

(** A configuration file whose second line has a lone double quote for its
    value. *)
Definition loneQuoteText : string := "key:" +:+ String dquote "".

Definition loneQuoteFile : string -> oserror + File := λ path,
  if decide (path = "mage.config")
  then inr {| lines := ["name: fromFile"; loneQuoteText]; scanErr := None |}
  else inl ErrNotExist.

(** Lines with quotes, spaces, a second colon, no colon and a repeated
    key. *)
Definition sampleLines : list string :=
  ["field4: file4"; "field5: 'file5'"; "junk"; "url : http://host "; "field5:last"].

(** A process whose configuration file cannot be opened, and one whose
    file fails while it is read. *)
Definition deniedFile : string -> oserror + File := λ _, inl (ErrOther "permission denied").

Definition brokenFile : string -> oserror + File := λ _,
  inr {| lines := ["name: fromFile"]; scanErr := Some (ErrOther "input/output error") |}.

Definition intMapField : StructField := mkField "IntMap" (TMap TInt) [].

(** ** Texts and kinds used to state further properties *)

(** Elements with a separator between them, as [strings.Join] writes
    them. *)
Fixpoint joinWith (sep : string) (xs : list string) : string :=
  match xs with
  | [] => ""
  | [x] => x
  | x :: rest => x +:+ sep +:+ joinWith sep rest
  end.

(** A text between two quote characters. *)
Definition quoted (q : ascii) (text : string) : string :=
  String q (text +:+ String q "").

(** The kinds that [parseStringToType] serves with a value of a wider
    type: [int] for [int32] and [int64], [uint] for [uint32] and [uint64],
    [float64] for [float32]. *)
Definition narrow (t : gotype) : bool :=
  match t with
  | TInt32 | TInt64 | TUint32 | TUint64 | TFloat32 => true
  | _ => false
  end.

(** Is the field, or are the elements of the slice or map, of such a
    kind? *)
Definition storesNarrow (t : gotype) : bool :=
  match t with
  | TSlice elem | TMap elem => narrow elem
  | _ => narrow t
  end.

(** A record with a required field that has a default, and a process that
    gives it nothing. *)
Definition requiredDefaultField : StructField :=
  mkField "Level" TInt [("required", "true"); ("default", "3")].

Definition requiredDefaultStruct : Struct := [(requiredDefaultField, Scalar (VInt 0))].

Definition quietProcess : Process := testProcess [] [] noFiles.

(** A record with a field of kind [int64]. *)
Definition int64Field : StructField := mkField "Size" TInt64 [("arg", "size")].

(** * Properties *)

(** ** The model against the package's own tests *)

Example Split_three : Split "one,two,three" "," = ["one"; "two"; "three"].
Proof. reflexivity. Qed.

Example Split_empty : Split "" "," = [""].
Proof. reflexivity. Qed.

Example Split_trailing : Split "a,,b," "," = ["a"; ""; "b"; ""].
Proof. reflexivity. Qed.

Example Split_long_separator : Split "a--b--c" "--" = ["a"; "b"; "c"].
Proof. reflexivity. Qed.

Example SplitN_first_colon : SplitN "a: b:c" ":" 2 = ["a"; " b:c"].
Proof. reflexivity. Qed.

Example SplitN_no_colon : SplitN "abc" ":" 2 = ["abc"].
Proof. reflexivity. Qed.

Example SplitN_empty_value : SplitN "abc:" ":" 2 = ["abc"; ""].
Proof. reflexivity. Qed.

Example TrimSpace_both_sides : TrimSpace "  a b	 " = "a b".
Proof. reflexivity. Qed.

Example TrimLeft_two_dashes : TrimLeft "--name=x" "-" = "name=x".
Proof. reflexivity. Qed.

Example Index_equal_sign : Index "name=x" "=" = 4 /\ Index "name" "=" = -1.
Proof. split; reflexivity. Qed.

Example ParseInt_bounds :
  Strconv.ParseInt "-9223372036854775808" = Ok (-9223372036854775808)
  /\ Strconv.ParseInt "9223372036854775808"
     = Err (NumError "ParseInt" "9223372036854775808" ErrRange)
  /\ Strconv.ParseInt "+" = Err (NumError "ParseInt" "+" ErrSyntax)
  /\ Strconv.ParseInt "42" = Ok 42.
Proof. repeat split; vm_compute; reflexivity. Qed.

(** [TestGetTagOrDefault]. *)
Example getTagOrDefault_test :
  getTagOrDefault (mkField "TestField" TString [("arg", "testArg")]) "arg" = "testArg"
  /\ getTagOrDefault (mkField "TestField" TString [("arg", "")]) "arg" = "testfield".
Proof. split; vm_compute; reflexivity. Qed.

(** [TestLoad], the case with argument values. *)
Example Load_with_args_values :
  Load (testProcess ["-dfield0=true"; "-field1=arg1"; "-field2"; "3";
                     "--field0"; "-field6=required"] [] noFiles)
       fresh (PtrStruct (zeroStruct TestConfig_fields)) ""
  = Return None
      (PtrStruct (zip TestConfig_fields
         [Scalar (VBool true); Scalar (VBool false); Scalar (VBool true);
          Scalar (VString "arg1"); Scalar (VInt 3); Scalar (VString "envDefault");
          Scalar (VString "fileDefault"); Scalar (VString "allDefault");
          Scalar (VString "required")]))
      {| isLoaded := true; onceDone := true |}.
Proof. vm_compute. reflexivity. Qed.

(** [TestLoad], the case with environment values. *)
Example Load_with_env_values :
  Load (testProcess ["-dfield0=true"]
          [("FIELD3", "env3"); ("FIELD5", "env5"); ("FIELD6", "required")] noFiles)
       fresh (PtrStruct (zeroStruct TestConfig_fields)) ""
  = Return None
      (PtrStruct (zip TestConfig_fields
         [Scalar (VBool true); Scalar (VBool false); Scalar (VBool false);
          Scalar (VString "default1"); Scalar (VInt 2); Scalar (VString "env3");
          Scalar (VString "fileDefault"); Scalar (VString "env5");
          Scalar (VString "required")]))
      {| isLoaded := true; onceDone := true |}.
Proof. vm_compute. reflexivity. Qed.

(** [TestLoad], the two failing cases: the error names [Field6], the
    required field, and [DField0], the dependency that is missing. *)
Example Load_required_not_set :
  exists s g, Load (testProcess ["-dfield0=true"] [] noFiles)
                   fresh (PtrStruct (zeroStruct TestConfig_fields)) ""
              = Return (Some (ErrRequiredNotSet "Field6")) s g.
Proof. eexists _, _. vm_compute. reflexivity. Qed.

Example Load_depends_not_set :
  exists s g, Load (testProcess ["-field6=required"] [] noFiles)
                   fresh (PtrStruct (zeroStruct TestConfig_fields)) ""
              = Return (Some (ErrDependsNotSet "DField0")) s g.
Proof. eexists _, _. vm_compute. reflexivity. Qed.

(** [TestSetFieldByKind]. *)
Example setFieldByKind_slice :
  setFieldByKind (mkField "StringSlice" (TSlice TString) []) "one,two,three"
  = Ok (SliceOf [VString "one"; VString "two"; VString "three"]).
Proof. reflexivity. Qed.

Example setFieldByKind_map :
  setFieldByKind (mkField "IntMap" (TMap TInt) []) "key1:1,key2:2,key3:3"
  = Ok (MapOf (<["key3" := VInt 3]> (<["key2" := VInt 2]> (<["key1" := VInt 1]> ∅)))).
Proof. vm_compute. reflexivity. Qed.

Example setFieldByKind_invalid_map :
  setFieldByKind (mkField "IntMap" (TMap TInt) []) "key1,key2:2,key3:3"
  = Err (InvalidMapValue "key1").
Proof. vm_compute. reflexivity. Qed.

(** A field of kind [Int32] takes the value [int(v)] of [parseStringToType],
    which [reflect] refuses to store. *)
Example setFieldByKind_int32 :
  setFieldByKind (mkField "N" TInt32 []) "12" = Panic.
Proof. reflexivity. Qed.

(** ** Loops over the fields *)

Section Passes.
Context `{External}.

Lemma setFields_ext setValue1 setValue2 (cfg : Struct) (isSet : IsSet) :
  (forall field v s, setValue1 field v s = setValue2 field v s) ->
  setFields setValue1 cfg isSet = setFields setValue2 cfg isSet.
Proof.
  intros Hext. revert isSet.
  induction cfg as [|[field v] rest IH]; intros isSet; simpl; [done|].
  rewrite Hext. destruct (setValue2 field v isSet) as [[v' isSet']| |]; [|done..].
  by rewrite IH.
Qed.

Lemma setDefault_field_candidate field v isSet :
  setDefault_field field v isSet = applyCandidate defaultCandidate field v isSet.
Proof.
  unfold setDefault_field, applyCandidate, defaultCandidate.
  by destruct (decide _).
Qed.

Lemma loadFromFile_field_candidate fileContent field v isSet :
  loadFromFile_field fileContent field v isSet
  = applyCandidate (mapCandidate fileContent tagFile) field v isSet.
Proof.
  unfold loadFromFile_field, applyCandidate, mapCandidate.
  by destruct (decide _).
Qed.

Lemma loadFromEnv_field_candidate p field v isSet :
  loadFromEnv_field p field v isSet = applyCandidate (envCandidate p) field v isSet.
Proof.
  unfold loadFromEnv_field, applyCandidate, envCandidate, mapCandidate.
  by destruct (decide _).
Qed.

Lemma loadFromArgs_field_candidate p field v isSet :
  loadFromArgs_field p field v isSet = applyCandidate (argCandidate p) field v isSet.
Proof.
  unfold loadFromArgs_field, applyCandidate, argCandidate.
  by destruct (decide _).
Qed.

(** A pass that has no candidate for any field changes nothing. *)
Lemma setFields_no_candidate cand (cfg : Struct) (isSet : IsSet) :
  (forall field, cand field = None) ->
  setFields (applyCandidate cand) cfg isSet = (cfg, isSet, Done).
Proof.
  intros Hnone. induction cfg as [|[field v] rest IH]; simpl; [done|].
  unfold applyCandidate at 1. rewrite Hnone. by rewrite IH.
Qed.

Lemma supplied_cons cand field fields name :
  supplied cand (field :: fields) name
  = bool_decide (Name field = name) && bool_decide (is_Some (cand field))
    || supplied cand fields name.
Proof. reflexivity. Qed.

Lemma setFields_Done cand (cfg cfg' : Struct) (isSet isSet' : IsSet) :
  setFields (applyCandidate cand) cfg isSet = (cfg', isSet', Done) ->
  Forall2 (fieldStep cand) cfg cfg'
  /\ forall name, isSet' !! name
                  = if supplied cand (fst <$> cfg) name then Some true
                    else isSet !! name.
Proof.
  revert cfg' isSet isSet'.
  induction cfg as [|[field v] rest IH]; intros cfg' isSet isSet' Hrun.
  - injection Hrun as <- <-. split; [constructor|done].
  - cbn [setFields] in Hrun. unfold applyCandidate at 1 in Hrun.
    rewrite fmap_cons. cbn [fst].
    destruct (cand field) as [s|] eqn:Hcand.
    + destruct (setFieldByKind field s) as [v'| |] eqn:Hconv; [|done..].
      unfold markSet in Hrun. cbn in Hrun.
      destruct (isSet !! Name field) as [b|] eqn:Hentry; [|done]. cbn in Hrun.
      destruct (setFields _ rest _) as [[rest' isSet1] st] eqn:Hrest.
      injection Hrun as <- <- ->.
      destruct (IH _ _ _ Hrest) as [Hsteps Hflags]. split.
      * constructor; [|done]. split; [done|]. cbn. by rewrite Hcand.
      * intros name. rewrite Hflags, supplied_cons, Hcand.
        destruct (supplied cand (fst <$> rest) name); [by rewrite orb_true_r|].
        rewrite orb_false_r.
        rewrite (bool_decide_eq_true_2 (is_Some (Some s))) by eauto.
        rewrite andb_true_r. case_bool_decide as Hname.
        -- subst name. by rewrite lookup_insert_eq.
        -- by rewrite lookup_insert_ne.
    + cbn in Hrun.
      destruct (setFields _ rest _) as [[rest' isSet1] st] eqn:Hrest.
      injection Hrun as <- <- ->.
      destruct (IH _ _ _ Hrest) as [Hsteps Hflags]. split.
      * constructor; [|done]. split; [done|]. cbn. by rewrite Hcand.
      * intros name. rewrite Hflags, supplied_cons, Hcand.
        rewrite (bool_decide_eq_false_2 (is_Some (@None string)))
          by (by intros [? ?]).
        by rewrite andb_false_r.
Qed.

Lemma fieldStep_fields cand (cfg cfg' : Struct) :
  Forall2 (fieldStep cand) cfg cfg' -> fst <$> cfg' = fst <$> cfg.
Proof.
  induction 1 as [|before after cfg cfg' [Hfield _] _ IH]; [done|].
  rewrite !fmap_cons. by rewrite Hfield, IH.
Qed.

Lemma fieldStep_lookup cand (cfg cfg' : Struct) i field v :
  Forall2 (fieldStep cand) cfg cfg' ->
  cfg !! i = Some (field, v) ->
  exists v', cfg' !! i = Some (field, v')
             /\ match cand field with
                | None => v' = v
                | Some s => setFieldByKind field s = Ok v'
                end.
Proof.
  intros Hsteps Hi.
  destruct (Forall2_lookup_l _ _ _ _ _ Hsteps Hi) as ([field' v'] & Hi' & Hfield & Hv).
  simpl in *. subst field'. eauto.
Qed.

Lemma supplied_NoDup cand (fields : list StructField) field :
  NoDup (Name <$> fields) -> field ∈ fields ->
  supplied cand fields (Name field) = bool_decide (is_Some (cand field)).
Proof.
  induction fields as [|first fields IH]; intros Hnodup Hin.
  - by apply elem_of_nil in Hin.
  - rewrite fmap_cons in Hnodup. apply NoDup_cons in Hnodup as [Hfresh Hnodup].
    rewrite supplied_cons. apply elem_of_cons in Hin as [->|Hin].
    + rewrite bool_decide_eq_true_2 by done. rewrite andb_true_l.
      destruct (supplied cand fields (Name first)) eqn:Hother; [|by rewrite orb_false_r].
      exfalso. apply Hfresh. unfold supplied in Hother.
      apply existsb_exists in Hother as (other & Hother & Hsame).
      apply andb_true_iff in Hsame as [Hsame _]. apply bool_decide_eq_true in Hsame.
      rewrite <- Hsame. apply list_elem_of_fmap. exists other.
      split; [done|]. by apply list_elem_of_In.
    + rewrite IH by done.
      rewrite (bool_decide_eq_false_2 (Name first = Name field)); [done|].
      intros Hname. apply Hfresh. rewrite Hname. apply list_elem_of_fmap. eauto.
Qed.

Lemma supplied_elem cand (fields : list StructField) field :
  field ∈ fields -> is_Some (cand field) -> supplied cand fields (Name field) = true.
Proof.
  intros Hin Hcand. apply existsb_exists. exists field. split.
  - by apply list_elem_of_In.
  - by rewrite !bool_decide_eq_true_2.
Qed.

Lemma initializeIsSet_lookup (cfg : Struct) (isSet : IsSet) name :
  initializeIsSet cfg isSet !! name
  = if bool_decide (name ∈ Name <$> (fst <$> cfg)) then Some false else isSet !! name.
Proof.
  revert isSet. induction cfg as [|[field v] rest IH]; intros isSet.
  - by rewrite bool_decide_eq_false_2 by apply not_elem_of_nil.
  - cbn [initializeIsSet]. rewrite IH, !fmap_cons. cbn [fst].
    destruct (decide (name ∈ Name <$> rest.*1)) as [Hin|Hout].
    + rewrite !bool_decide_eq_true_2; [done| |done]. apply elem_of_cons. by right.
    + rewrite (bool_decide_eq_false_2 _ Hout).
      destruct (decide (name = Name field)) as [->|Hne].
      * rewrite lookup_insert_eq. rewrite bool_decide_eq_true_2; [done|].
        apply elem_of_cons. by left.
      * rewrite lookup_insert_ne by done. rewrite bool_decide_eq_false_2; [done|].
        intros [?|?]%elem_of_cons; done.
Qed.

Lemma andThen_Done r next (cfg : Struct) (isSet : IsSet) :
  andThen r next = (cfg, isSet, Done) ->
  exists cfg0 isSet0, r = (cfg0, isSet0, Done) /\ next cfg0 isSet0 = (cfg, isSet, Done).
Proof.
  destruct r as [[cfg0 isSet0] [|e|]]; simpl; intros Hrun; try done. eauto.
Qed.

(** When the file pass completes, it has acted as the pass of the file
    candidates. *)
Lemma loadFromFile_Done p file (cfg cfg' : Struct) (isSet isSet' : IsSet) :
  loadFromFile p file cfg isSet = (cfg', isSet', Done) ->
  setFields (applyCandidate (fileCandidate p file)) cfg isSet = (cfg', isSet', Done).
Proof.
  unfold loadFromFile, fileCandidate, fileContentOf.
  destruct (decide (file = "")) as [Hfile|Hfile].
  { intros [= <- <-]. by apply setFields_no_candidate. }
  destruct (Open p file) as [[|msg]|f].
  - intros [= <- <-]. by apply setFields_no_candidate.
  - done.
  - destruct (scanLines (lines f) ∅) as [fileContent|e|]; [|done..].
    destruct (scanErr f); [done|]. intros <-.
    apply setFields_ext. intros field v s. symmetry. apply loadFromFile_field_candidate.
Qed.

(** A completed run of the four passes is a run of four candidate passes. *)
Lemma loadPasses_Done p file (cfg cfg' : Struct) (isSet' : IsSet) :
  loadPasses p cfg file = (cfg', isSet', Done) ->
  exists cfg1 isSet1 cfg2 isSet2 cfg3 isSet3,
    setFields (applyCandidate defaultCandidate) cfg (initializeIsSet cfg ∅)
      = (cfg1, isSet1, Done)
    /\ setFields (applyCandidate (fileCandidate p file)) cfg1 isSet1
       = (cfg2, isSet2, Done)
    /\ setFields (applyCandidate (envCandidate p)) cfg2 isSet2 = (cfg3, isSet3, Done)
    /\ setFields (applyCandidate (argCandidate p)) cfg3 isSet3 = (cfg', isSet', Done).
Proof.
  unfold loadPasses. intros Hrun.
  apply andThen_Done in Hrun as (cfg3 & isSet3 & Hrun & Hargs).
  apply andThen_Done in Hrun as (cfg2 & isSet2 & Hrun & Henv).
  apply andThen_Done in Hrun as (cfg1 & isSet1 & Hdefault & Hfile).
  exists cfg1, isSet1, cfg2, isSet2, cfg3, isSet3. repeat split.
  - rewrite <- Hdefault. symmetry. apply setFields_ext.
    intros. apply setDefault_field_candidate.
  - by apply loadFromFile_Done.
  - rewrite <- Henv. symmetry. apply setFields_ext.
    intros. apply loadFromEnv_field_candidate.
  - rewrite <- Hargs. symmetry. apply setFields_ext.
    intros. apply loadFromArgs_field_candidate.
Qed.

Lemma loadPasses_fields p file (cfg cfg' : Struct) (isSet' : IsSet) :
  loadPasses p cfg file = (cfg', isSet', Done) -> fst <$> cfg' = fst <$> cfg.
Proof.
  intros (cfg1 & isSet1 & cfg2 & isSet2 & cfg3 & isSet3 & H1 & H2 & H3 & H4)%loadPasses_Done.
  apply setFields_Done in H1 as [H1 _]. apply setFields_Done in H2 as [H2 _].
  apply setFields_Done in H3 as [H3 _]. apply setFields_Done in H4 as [H4 _].
  apply fieldStep_fields in H1, H2, H3, H4. congruence.
Qed.

Lemma loadPasses_trace p file (cfg cfg' : Struct) (isSet' : IsSet) i field v :
  loadPasses p cfg file = (cfg', isSet', Done) ->
  cfg !! i = Some (field, v) ->
  exists v1 v2 v3 v4,
    cfg' !! i = Some (field, v4)
    /\ passStep defaultCandidate field v v1
    /\ passStep (fileCandidate p file) field v1 v2
    /\ passStep (envCandidate p) field v2 v3
    /\ passStep (argCandidate p) field v3 v4.
Proof.
  intros (cfg1 & isSet1 & cfg2 & isSet2 & cfg3 & isSet3 & H1 & H2 & H3 & H4)%loadPasses_Done Hi.
  apply setFields_Done in H1 as [H1 _]. apply setFields_Done in H2 as [H2 _].
  apply setFields_Done in H3 as [H3 _]. apply setFields_Done in H4 as [H4 _].
  destruct (fieldStep_lookup _ _ _ _ _ _ H1 Hi) as (v1 & Hi1 & Hv1).
  destruct (fieldStep_lookup _ _ _ _ _ _ H2 Hi1) as (v2 & Hi2 & Hv2).
  destruct (fieldStep_lookup _ _ _ _ _ _ H3 Hi2) as (v3 & Hi3 & Hv3).
  destruct (fieldStep_lookup _ _ _ _ _ _ H4 Hi3) as (v4 & Hi4 & Hv4).
  by exists v1, v2, v3, v4.
Qed.

(** Four steps in the order of the passes end in the conversion of the
    winning candidate. *)
Lemma passStep_winner p file field v v1 v2 v3 v4 :
  passStep defaultCandidate field v v1 ->
  passStep (fileCandidate p file) field v1 v2 ->
  passStep (envCandidate p) field v2 v3 ->
  passStep (argCandidate p) field v3 v4 ->
  match winner p file field with
  | Some s => setFieldByKind field s = Ok v4
  | None => v4 = v
  end.
Proof.
  unfold winner, passStep. intros Hv1 Hv2 Hv3 Hv4.
  destruct (argCandidate p field); [done|]. subst v4.
  destruct (envCandidate p field); [done|]. subst v3.
  destruct (fileCandidate p file field); [done|]. subst v2.
  destruct (defaultCandidate field); done.
Qed.

(** The content of every field after the four passes: the conversion of the
    winning candidate, or the content the field had. *)
Lemma loadPasses_values p file (cfg cfg' : Struct) (isSet' : IsSet) i field v :
  loadPasses p cfg file = (cfg', isSet', Done) ->
  cfg !! i = Some (field, v) ->
  exists v', cfg' !! i = Some (field, v')
             /\ match winner p file field with
                | Some s => setFieldByKind field s = Ok v'
                | None => v' = v
                end.
Proof.
  intros Hrun Hi.
  destruct (loadPasses_trace _ _ _ _ _ _ _ _ Hrun Hi)
    as (v1 & v2 & v3 & v4 & Hi4 & Hv1 & Hv2 & Hv3 & Hv4).
  exists v4. split; [done|]. by eapply passStep_winner.
Qed.

(** The flag of every name after the four passes. *)
Lemma loadPasses_flags p file (cfg cfg' : Struct) (isSet' : IsSet) name :
  loadPasses p cfg file = (cfg', isSet', Done) ->
  isSet' !! name
  = if supplied (argCandidate p) (fst <$> cfg) name
       || supplied (envCandidate p) (fst <$> cfg) name
       || supplied (fileCandidate p file) (fst <$> cfg) name
       || supplied defaultCandidate (fst <$> cfg) name
    then Some true
    else if bool_decide (name ∈ Name <$> (fst <$> cfg)) then Some false else None.
Proof.
  intros (cfg1 & isSet1 & cfg2 & isSet2 & cfg3 & isSet3 & H1 & H2 & H3 & H4)%loadPasses_Done.
  apply setFields_Done in H1 as [S1 F1]. apply setFields_Done in H2 as [S2 F2].
  apply setFields_Done in H3 as [S3 F3]. apply setFields_Done in H4 as [S4 F4].
  apply fieldStep_fields in S1, S2, S3.
  rewrite F4, F3, F2, F1, initializeIsSet_lookup, lookup_empty.
  rewrite S3, S2, S1.
  by repeat destruct (supplied _ _ _).
Qed.

End Passes.

(** ** The four passes *)

Section Resolution.
Context `{External}.

(** What [Load] returns once the gates at its head are passed and the
    argument points to a record. *)
Lemma Load_passes p g (cfg : Struct) file :
  isHelpRequested (Args p) = false ->
  isLoaded g = false ->
  mageCommandGiven (Args p) = false ->
  Load p g (PtrStruct cfg) file
  = match loadPasses p cfg file with
    | (cfg', isSet, Done) =>
        Return (checkRequiredAndDepends (fst <$> cfg') isSet) (PtrStruct cfg') (once_Do g)
    | (cfg', _, Failed e) => Return (Some e) (PtrStruct cfg') g
    | (_, _, Panicked) => Panics
    end.
Proof. intros Hhelp Hloaded Hmage. unfold Load. by rewrite Hhelp, Hloaded, Hmage. Qed.

(** A return of [Load] with a nil error either skipped the passes, leaving
    the record as it was, or completed them. *)
Lemma Load_success p g (cfg cfg' : Struct) file g' :
  Load p g (PtrStruct cfg) file = Return None (PtrStruct cfg') g' ->
  (isLoaded g || mageCommandGiven (Args p) = true /\ cfg' = cfg)
  \/ (isLoaded g || mageCommandGiven (Args p) = false
      /\ exists isSet', loadPasses p cfg file = (cfg', isSet', Done)).
Proof.
  unfold Load. destruct (isHelpRequested (Args p)); [done|].
  destruct (isLoaded g); [intros [= <- <-]; by left|].
  destruct (mageCommandGiven (Args p)); [intros [= <- <-]; by left|].
  destruct (loadPasses p cfg file) as [[cfg1 isSet1] [|e|]]; [|done..].
  intros [= _ <- <-]. right. eauto.
Qed.

(** C1 (as amended): unless the configuration was loaded before or a default
    Mage command ([-l], [-h]) is among the arguments, after a successful
    [Load] the content of every field is the conversion of the value the
    argument scanner returned for it when that value is not empty, else of
    the value of its environment variable, else of the value of its file
    key, else of its default literal, and the field is untouched when none
    of these exists.  In the two excepted cases [Load] runs no pass and every
    field is untouched. *)
Theorem precedence_law p g (cfg cfg' : Struct) file g' i field v :
  Load p g (PtrStruct cfg) file = Return None (PtrStruct cfg') g' ->
  cfg !! i = Some (field, v) ->
  exists v',
    cfg' !! i = Some (field, v')
    /\ if isLoaded g || mageCommandGiven (Args p) then v' = v
       else match winner p file field with
            | Some s => setFieldByKind field s = Ok v'
            | None => v' = v
            end.
Proof.
  intros [[-> ->]|[-> [isSet' Hrun]]]%Load_success Hi.
  - by exists v.
  - by eapply loadPasses_values.
Qed.

End Resolution.

Lemma precedence_law_witness :
  exists v',
    [(nameField, Scalar (VString "fromArg"))] !! 0%nat = Some (nameField, v')
    /\ if isLoaded fresh || mageCommandGiven (Args (wiredProcess ["--name=fromArg"]))
       then v' = Scalar (VString "")
       else match winner (wiredProcess ["--name=fromArg"]) "mage.config" nameField with
            | Some s => setFieldByKind nameField s = Ok v'
            | None => v' = Scalar (VString "")
            end.
Proof.
  apply (precedence_law (wiredProcess ["--name=fromArg"]) fresh nameStruct
           [(nameField, Scalar (VString "fromArg"))] "mage.config" (once_Do fresh)).
  - vm_compute. reflexivity.
  - reflexivity.
Defined.

(** The same field without an argument, then without the environment
    variable, then without the file: the next source in line wins. *)
Example next_source_in_line :
  (exists g, Load (wiredProcess []) fresh (PtrStruct nameStruct) "mage.config"
             = Return None (PtrStruct [(nameField, Scalar (VString "fromEnv"))]) g)
  /\ (exists g, Load (testProcess [] [] nameFile) fresh (PtrStruct nameStruct) "mage.config"
                = Return None (PtrStruct [(nameField, Scalar (VString "fromFile"))]) g)
  /\ (exists g, Load (testProcess [] [] nameFile) fresh (PtrStruct nameStruct) "none"
                = Return None (PtrStruct [(nameField, Scalar (VString "fromDefault"))]) g).
Proof. repeat split; eexists; vm_compute; reflexivity. Qed.

(** C1 as stated fails: with [-l] among the arguments [Load] returns nil,
    an argument for the field is present, and the field keeps its old
    content instead of the converted argument. *)
Lemma precedence_law_counterexample :
  Load (wiredProcess ["--name=fromArg"; "-l"]) fresh (PtrStruct nameStruct) "mage.config"
  = Return None (PtrStruct nameStruct) fresh
  /\ winner (wiredProcess ["--name=fromArg"; "-l"]) "mage.config" nameField
     = Some "fromArg"
  /\ ~ (exists v', nameStruct !! 0%nat = Some (nameField, v')
                   /\ setFieldByKind nameField "fromArg" = Ok v').
Proof.
  split; [vm_compute; reflexivity|]. split; [vm_compute; reflexivity|].
  intros (v' & Hlookup & Hconv). injection Hlookup as <-.
  vm_compute in Hconv. discriminate.
Qed.

(** The latch does the same on a second call. *)
Example latch_on_second_call :
  Load (wiredProcess ["--name=fromArg"]) loaded (PtrStruct nameStruct) "mage.config"
  = Return None (PtrStruct nameStruct) loaded.
Proof. reflexivity. Qed.

(** ** Set tracking *)

Section Tracking.
Context `{External}.

(** C2: after the four passes the flag of a field is true exactly when one
    of the sources, the defaults pass included, had a value for the field
    that was converted; it is false otherwise; and a field with a non-empty
    default literal is marked set. *)
Theorem set_tracking p file (cfg cfg' : Struct) (isSet' : IsSet) field v :
  NoDup (Name <$> (fst <$> cfg)) ->
  loadPasses p cfg file = (cfg', isSet', Done) ->
  (field, v) ∈ cfg ->
  (isSet' !! Name field = Some true <->
     exists s v', (defaultCandidate field = Some s
                   \/ fileCandidate p file field = Some s
                   \/ envCandidate p field = Some s
                   \/ argCandidate p field = Some s)
                  /\ setFieldByKind field s = Ok v')
  /\ (isSet' !! Name field = Some true \/ isSet' !! Name field = Some false)
  /\ (Tag_Get field tagDefault <> "" -> isSet' !! Name field = Some true).
Proof.
  intros Hnodup Hrun Hin.
  assert (field ∈ fst <$> cfg) as Hfield
    by (apply list_elem_of_fmap; by exists (field, v)).
  pose proof (loadPasses_flags _ _ _ _ _ (Name field) Hrun) as Hflag.
  rewrite !supplied_NoDup in Hflag by done.
  rewrite (bool_decide_eq_true_2 (Name field ∈ _)) in Hflag
    by (by apply list_elem_of_fmap_2).
  apply list_elem_of_lookup in Hin as [i Hi].
  destruct (loadPasses_trace _ _ _ _ _ _ _ _ Hrun Hi)
    as (v1 & v2 & v3 & v4 & _ & Hv1 & Hv2 & Hv3 & Hv4).
  unfold passStep in *.
  assert (isSet' !! Name field = Some true <->
          is_Some (argCandidate p field) \/ is_Some (envCandidate p field)
          \/ is_Some (fileCandidate p file field) \/ is_Some (defaultCandidate field))
    as Hiff.
  { rewrite Hflag. split.
    - intros Htrue.
      destruct (decide (is_Some (argCandidate p field))); [by left|].
      destruct (decide (is_Some (envCandidate p field))); [by right; left|].
      destruct (decide (is_Some (fileCandidate p file field))); [by right; right; left|].
      destruct (decide (is_Some (defaultCandidate field))); [by right; right; right|].
      by rewrite !bool_decide_eq_false_2 in Htrue.
    - intros [Hc|[Hc|[Hc|Hc]]]; rewrite (bool_decide_eq_true_2 _ Hc);
        by rewrite ?orb_true_r. }
  split; [|split].
  - rewrite Hiff. split.
    + intros [[s Hc]|[[s Hc]|[[s Hc]|[s Hc]]]]; rewrite Hc in *; eauto 10.
    + intros (s & v' & [Hc|[Hc|[Hc|Hc]]] & _); rewrite Hc; eauto.
  - rewrite Hflag. destruct (_ || _); eauto.
  - intros Hdefault. apply Hiff. do 3 right.
    unfold defaultCandidate. destruct (decide _); [done|eauto].
Qed.

(** C10: a field for which no source has a candidate keeps its content, and
    its flag is false after the passes. *)
Theorem untouched_without_source p file (cfg : Struct) i field v :
  NoDup (Name <$> (fst <$> cfg)) ->
  cfg !! i = Some (field, v) ->
  Tag_Get field tagDefault = "" ->
  fileCandidate p file field = None ->
  envCandidate p field = None ->
  argCandidate p field = None ->
  (forall (cfg' : Struct) (isSet' : IsSet),
     loadPasses p cfg file = (cfg', isSet', Done) ->
     cfg' !! i = Some (field, v) /\ isSet' !! Name field = Some false)
  /\ (forall g (cfg' : Struct) g',
        Load p g (PtrStruct cfg) file = Return None (PtrStruct cfg') g' ->
        cfg' !! i = Some (field, v)).
Proof.
  intros Hnodup Hi Hdefault Hfile Henv Harg.
  assert (defaultCandidate field = None) as Hnone
    by (unfold defaultCandidate; by rewrite decide_True).
  assert (winner p file field = None) as Hwinner
    by (unfold winner; by rewrite Harg, Henv, Hfile).
  assert (forall (cfg' : Struct) (isSet' : IsSet),
            loadPasses p cfg file = (cfg', isSet', Done) ->
            cfg' !! i = Some (field, v)) as Hkeep.
  { intros cfg' isSet' Hrun.
    destruct (loadPasses_values _ _ _ _ _ _ _ _ Hrun Hi) as (v' & Hi' & Hv').
    rewrite Hwinner in Hv'. by subst v'. }
  split.
  - intros cfg' isSet' Hrun. split; [by eapply Hkeep|].
    assert (field ∈ fst <$> cfg) as Hfield.
    { apply list_elem_of_fmap. exists (field, v). split; [done|].
      by eapply list_elem_of_lookup_2. }
    rewrite (loadPasses_flags _ _ _ _ _ (Name field) Hrun).
    rewrite !supplied_NoDup by done.
    rewrite Harg, Henv, Hfile, Hnone.
    rewrite (bool_decide_eq_false_2 (is_Some None)) by (by intros [? ?]).
    by rewrite bool_decide_eq_true_2 by (by apply list_elem_of_fmap_2).
  - intros g cfg' g' [[_ ->]|[_ [isSet' Hrun]]]%Load_success; [done|by eapply Hkeep].
Qed.

End Tracking.

Lemma set_tracking_witness :
  defaultsRun.1.2 !! Name Field1 = Some true.
Proof.
  apply (set_tracking defaultsProcess "" (zeroStruct TestConfig_fields)
           defaultsRun.1.1 defaultsRun.1.2 Field1 (Scalar (VString ""))).
  - compute_done.
  - vm_compute. reflexivity.
  - apply list_elem_of_lookup. exists 3%nat. reflexivity.
  - vm_compute. discriminate.
Defined.

(** The flags of the record of [TestLoad] when only [dfield0] and [field6]
    are given: the fields with a default are marked, [DField1] is not. *)
Example flags_of_defaults_run :
  (λ f, defaultsRun.1.2 !! Name f) <$> TestConfig_fields
  = [Some true; Some false; Some true; Some true; Some true; Some true;
     Some true; Some true; Some true].
Proof. vm_compute. reflexivity. Qed.

(** The earlier loader leaves the flag of a field alone when it assigns its
    default. *)
Example Legacy_defaults_not_marked :
  (Legacy.loadPasses defaultsProcess (zeroStruct TestConfig_fields) "").1.2
    !! Name Field1 = Some false.
Proof. vm_compute. reflexivity. Qed.

Lemma untouched_without_source_witness :
  (forall (cfg' : Struct) (isSet' : IsSet),
     loadPasses defaultsProcess (zeroStruct TestConfig_fields) "" = (cfg', isSet', Done) ->
     cfg' !! 1%nat = Some (DField1, Scalar (VBool false))
     /\ isSet' !! Name DField1 = Some false)
  /\ (forall g (cfg' : Struct) g',
        Load defaultsProcess g (PtrStruct (zeroStruct TestConfig_fields)) ""
        = Return None (PtrStruct cfg') g' ->
        cfg' !! 1%nat = Some (DField1, Scalar (VBool false))).
Proof.
  apply (untouched_without_source defaultsProcess "" (zeroStruct TestConfig_fields)
           1%nat DField1 (Scalar (VBool false))).
  - compute_done.
  - reflexivity.
  - reflexivity.
  - reflexivity.
  - reflexivity.
  - vm_compute. reflexivity.
Defined.

(** ** Validation *)

Section Validation.
Context `{External}.

Lemma head_app_cases {A} (l k : list A) :
  head (l ++ k) = match head l with Some x => Some x | None => head k end.
Proof. by destruct l. Qed.

Lemma checkDepends_head depends (isSet : IsSet) :
  checkDepends depends isSet
  = head (ErrDependsNotSet <$> filter (λ d, notSet isSet d = true) depends).
Proof.
  induction depends as [|depend rest IH]; [done|]. cbn [checkDepends].
  rewrite filter_cons. destruct (notSet isSet depend) eqn:Hset.
  - by rewrite decide_True.
  - by rewrite decide_False.
Qed.

(** The validation pass returns the first of all the violations. *)
Lemma checkRequiredAndDepends_head fields (isSet : IsSet) :
  checkRequiredAndDepends fields isSet = head (violations fields isSet).
Proof.
  unfold violations.
  induction fields as [|field rest IH]; [done|].
  cbn [checkRequiredAndDepends]. rewrite bind_cons, head_app_cases.
  unfold violationsOf at 1. rewrite head_app_cases.
  destruct (bool_decide (Tag_Get field tagRequired = "true") && notSet isSet (Name field));
    [done|]. cbn [head].
  destruct (decide (Tag_Get field tagDepends = "")) as [Hdep|Hdep].
  - done.
  - rewrite checkDepends_head.
    by destruct (head (ErrDependsNotSet <$> _)).
Qed.

(** C3: when the four passes complete, [Load] returns what the validation
    pass returns, and that is the first violation in the order of the
    fields, for each field a missing required value (named by the field)
    before its missing dependencies (each named by the dependency), or nil
    when there is none. *)
Theorem validation_first_violation p g (cfg cfg' : Struct) (isSet : IsSet) file :
  isHelpRequested (Args p) = false ->
  isLoaded g = false ->
  mageCommandGiven (Args p) = false ->
  loadPasses p cfg file = (cfg', isSet, Done) ->
  checkRequiredAndDepends (fst <$> cfg) isSet = head (violations (fst <$> cfg) isSet)
  /\ Load p g (PtrStruct cfg) file
     = Return (head (violations (fst <$> cfg) isSet)) (PtrStruct cfg') (once_Do g).
Proof.
  intros Hhelp Hloaded Hmage Hrun.
  split; [apply checkRequiredAndDepends_head|].
  rewrite Load_passes by done. rewrite Hrun.
  rewrite (loadPasses_fields _ _ _ _ _ Hrun).
  by rewrite checkRequiredAndDepends_head.
Qed.

End Validation.

Lemma validation_first_violation_witness :
  checkRequiredAndDepends (fst <$> zeroStruct TestConfig_fields) dependsRun.1.2
  = head (violations (fst <$> zeroStruct TestConfig_fields) dependsRun.1.2)
  /\ Load dependsProcess fresh (PtrStruct (zeroStruct TestConfig_fields)) ""
     = Return (head (violations (fst <$> zeroStruct TestConfig_fields) dependsRun.1.2))
              (PtrStruct dependsRun.1.1) (once_Do fresh).
Proof.
  apply (validation_first_violation dependsProcess fresh (zeroStruct TestConfig_fields)
           dependsRun.1.1 dependsRun.1.2 "").
  - reflexivity.
  - reflexivity.
  - reflexivity.
  - vm_compute. reflexivity.
Defined.

(** All the violations of that run, in order: the dependency of [DField1]
    comes before nothing else, since [Field6] is given. *)
Example violations_depends_run :
  violations TestConfig_fields dependsRun.1.2 = [ErrDependsNotSet "DField0"].
Proof. vm_compute. reflexivity. Qed.

(** With nothing given there are two violations, and the first one is
    returned. *)
Example violations_not_aggregated :
  violations TestConfig_fields
    (loadPasses (testProcess [] [] noFiles) (zeroStruct TestConfig_fields) "").1.2
  = [ErrDependsNotSet "DField0"; ErrRequiredNotSet "Field6"]
  /\ exists s g, Load (testProcess [] [] noFiles) fresh
                      (PtrStruct (zeroStruct TestConfig_fields)) ""
                 = Return (Some (ErrDependsNotSet "DField0")) s g.
Proof. split; [|eexists _, _]; vm_compute; reflexivity. Qed.

(** ** The configuration file *)

Lemma append_cons (c : ascii) (s t : string) :
  String c s +:+ t = String c (s +:+ t).
Proof. reflexivity. Qed.

Lemma append_empty_r (s : string) : s +:+ "" = s.
Proof. induction s as [|c s IH]; [done|]. by rewrite append_cons, IH. Qed.

Lemma append_assoc (s1 s2 s3 : string) : (s1 +:+ s2) +:+ s3 = s1 +:+ (s2 +:+ s3).
Proof. induction s1 as [|c s1 IH]; [done|]. by rewrite !append_cons, IH. Qed.

Lemma Index_lower_bound (s substr : string) : -1 <= Index s substr.
Proof.
  induction s as [|c s IH]; cbn [Index].
  - destruct (HasPrefix "" substr); lia.
  - destruct (HasPrefix (String c s) substr); [lia|].
    cbv zeta. destruct (Z.ltb_spec (Index s substr) 0); lia.
Qed.

Lemma byte_eqb_eq (a b : ascii) : byte_eqb a b = true <-> a = b.
Proof. apply Ascii.eqb_eq. Qed.

(** [SplitN(line, ":", 2)] cuts the line at its first colon. *)
Lemma genSplit_first_colon (s cur : string) :
  genSplit ":" s 0 (Some 1%nat) cur
  = match firstColon s with
    | Some (k, v) => [cur +:+ k; v]
    | None => [cur +:+ s]
    end.
Proof.
  revert cur. induction s as [|c s IH]; intros cur.
  - cbn. by rewrite append_empty_r.
  - cbn [genSplit]. unfold firstColon. cbn [Index HasPrefix].
    destruct (byte_eqb c ":") eqn:Hc; cbn [andb].
    + cbn. rewrite append_empty_r. by destruct s.
    + rewrite IH. unfold firstColon. cbv zeta.
      pose proof (Index_lower_bound s ":") as Hlow.
      destruct (Z.ltb_spec (Index s ":") 0) as [Hneg|Hpos].
      * cbn. by rewrite append_assoc.
      * rewrite (proj2 (Z.ltb_ge _ _)) by lia.
        rewrite Z2Nat.inj_add by lia.
        replace (Z.to_nat (Index s ":") + Z.to_nat 1)%nat
          with (S (Z.to_nat (Index s ":"))) by lia.
        cbn [take drop Nat.add]. by rewrite append_assoc.
Qed.

Lemma SplitN_first_colon_spec (line : string) :
  SplitN line kvSeparator 2
  = match firstColon line with
    | Some (k, v) => [k; v]
    | None => [line]
    end.
Proof.
  unfold SplitN, kvSeparator. cbn [Nat.pred]. rewrite genSplit_first_colon.
  by destruct (firstColon line) as [[k v]|].
Qed.

Lemma scanLine_first_colon (line : string) (fileContent : gmap string string) :
  scanLine line fileContent
  = match firstColon line with
    | Some (k, v) =>
        value ← stripExpr (TrimSpace v); Ok (<[TrimSpace k := value]> fileContent)
    | None => Ok fileContent
    end.
Proof.
  unfold scanLine. rewrite SplitN_first_colon_spec.
  by destruct (firstColon line) as [[k v]|].
Qed.

Lemma byteIs_last (c d : ascii) (s : string) (q : ascii) :
  byteIs (String c (String d s)) (len (String c (String d s)) - 1) q
  = byteIs (String d s) (len (String d s) - 1) q.
Proof.
  unfold byteIs, len. cbn [String.length].
  rewrite !(proj2 (Z.leb_le _ _)) by lia.
  replace (Z.to_nat (Z.of_nat (S (S (String.length s))) - 1))
    with (S (String.length s)) by lia.
  replace (Z.to_nat (Z.of_nat (S (String.length s)) - 1))
    with (String.length s) by lia.
  reflexivity.
Qed.

(** On a lone quote the slice expression [value[1:0]] panics; on every other
    value the code strips one layer of quotes around the value. *)
Lemma stripExpr_one_byte (c : ascii) :
  stripExpr (String c "")
  = if byte_eqb c dquote || byte_eqb c squote then Panic else Ok (String c "").
Proof.
  change (stripExpr (String c ""))
    with (if byte_eqb c dquote && byte_eqb c dquote
             || byte_eqb c squote && byte_eqb c squote
          then @Panic string else Ok (String c "")).
  by destruct (byte_eqb c dquote), (byte_eqb c squote).
Qed.

Lemma loneQuote_one_byte (c : ascii) :
  loneQuote (String c "") = byte_eqb c dquote || byte_eqb c squote.
Proof.
  unfold loneQuote. f_equal.
  - destruct (byte_eqb c dquote) eqn:Hc.
    + apply byte_eqb_eq in Hc as ->. by apply bool_decide_eq_true_2.
    + apply bool_decide_eq_false_2. intros [= ->].
      by rewrite (proj2 (byte_eqb_eq _ _)) in Hc.
  - destruct (byte_eqb c squote) eqn:Hc.
    + apply byte_eqb_eq in Hc as ->. by apply bool_decide_eq_true_2.
    + apply bool_decide_eq_false_2. intros [= ->].
      by rewrite (proj2 (byte_eqb_eq _ _)) in Hc.
Qed.

(** On a lone quote the slice expression [value[1:0]] panics; on every other
    value the code strips one layer of quotes around the value. *)
Lemma stripExpr_spec (value : string) :
  stripExpr value = if loneQuote value then Panic else Ok (stripQuotes value).
Proof.
  destruct value as [|c [|d s]].
  - reflexivity.
  - rewrite stripExpr_one_byte, loneQuote_one_byte.
    by destruct (_ || _).
  - unfold stripExpr, stripQuotes, hasQuotes, loneQuote.
    rewrite !bool_decide_eq_false_2 by done. cbn [orb].
    assert ((0 <? len (String c (String d s))) = true) as ->
      by (unfold len; cbn [String.length]; apply Z.ltb_lt; lia).
    assert ((2 <=? len (String c (String d s))) = true) as ->
      by (unfold len; cbn [String.length]; apply Z.leb_le; lia).
    cbn [andb].
    destruct (_ || _); [|done].
    unfold sliceExpr, len. cbn [String.length].
    rewrite !(proj2 (Z.leb_le _ _)) by lia. cbn [andb].
    do 2 f_equal. lia.
Qed.

Lemma scanLine_spec (line : string) (fileContent : gmap string string) :
  scanLine line fileContent
  = if loneQuoteLine line then Panic
    else Ok match lineEntry line with
            | Some (k, v) => <[k := v]> fileContent
            | None => fileContent
            end.
Proof.
  rewrite scanLine_first_colon. unfold loneQuoteLine, lineEntry.
  destruct (firstColon line) as [[k v]|]; [|done]. cbn.
  rewrite stripExpr_spec. by destruct (loneQuote (TrimSpace v)).
Qed.

Lemma scanLines_spec (ls : list string) (fileContent : gmap string string) :
  Forall (λ line, loneQuoteLine line = false) ls ->
  scanLines ls fileContent
  = Ok (foldl (λ m line, match lineEntry line with
                         | Some (k, v) => <[k := v]> m
                         | None => m
                         end) fileContent ls).
Proof.
  intros Hlines. revert fileContent.
  induction Hlines as [|line ls Hline _ IH]; intros fileContent; [done|].
  cbn [scanLines foldl]. rewrite scanLine_spec, Hline. cbn. apply IH.
Qed.

(** X3: a line whose trimmed value is a lone quote makes the scanning loop
    panic, whatever comes after it, when no line before it is of that
    kind. *)
Lemma scanLines_panic (before after : list string) (line : string)
    (fileContent : gmap string string) :
  Forall (λ line, loneQuoteLine line = false) before ->
  loneQuoteLine line = true ->
  scanLines (before ++ line :: after) fileContent = Panic.
Proof.
  intros Hbefore Hline. revert fileContent.
  induction Hbefore as [|first before Hfirst _ IH]; intros fileContent.
  - cbn. by rewrite scanLine_spec, Hline.
  - cbn [app scanLines]. rewrite scanLine_spec, Hfirst. cbn. apply IH.
Qed.

Lemma fileMap_snoc (ls : list string) (line : string) :
  fileMap (ls ++ [line])
  = match lineEntry line with
    | Some (k, v) => <[k := v]> (fileMap ls)
    | None => fileMap ls
    end.
Proof. unfold fileMap. by rewrite foldl_snoc. Qed.

(** In the map the last line with a key wins. *)
Lemma fileMap_lookup (ls : list string) (key : string) :
  fileMap ls !! key = lastValue key ls.
Proof.
  unfold lastValue.
  induction ls as [|line ls IH] using rev_ind; [done|].
  rewrite fileMap_snoc, omap_app, filter_app.
  assert (omap lineEntry [line]
          = match lineEntry line with Some e => [e] | None => [] end) as ->
    by (cbn; by destruct (lineEntry line)).
  destruct (lineEntry line) as [[k v]|].
  - rewrite filter_cons, filter_nil. cbn [fst].
    destruct (decide (k = key)) as [->|Hne].
    + by rewrite last_snoc, lookup_insert_eq.
    + rewrite app_nil_r. by rewrite lookup_insert_ne.
  - by rewrite filter_nil, app_nil_r.
Qed.

(** C5: the scanning loop of the file pass builds the map of the format as
    described: every line is cut at its first colon, lines without a colon
    are skipped, key and value are trimmed, one layer of matching quotes
    around the value is removed, and the last line with a key gives the
    value of the key.  Lines whose trimmed value is a lone quote character
    are set apart: the scan does not get past them. *)
Theorem file_parsing (ls : list string) :
  Forall (λ line, loneQuoteLine line = false) ls ->
  scanLines ls ∅ = Ok (fileMap ls)
  /\ forall key, fileMap ls !! key = lastValue key ls.
Proof.
  intros Hlines. split.
  - by apply scanLines_spec.
  - intros key. apply fileMap_lookup.
Qed.

Lemma file_parsing_witness :
  scanLines sampleLines ∅ = Ok (fileMap sampleLines)
  /\ forall key, fileMap sampleLines !! key = lastValue key sampleLines.
Proof.
  apply (file_parsing sampleLines).
  repeat constructor.
Defined.

Example fileMap_sample :
  fileMap sampleLines
  = list_to_map [("field4", "file4"); ("field5", "last"); ("url", "http://host")].
Proof. vm_compute. reflexivity. Qed.

Example lineEntry_quotes :
  lineEntry "k: 'v'" = Some ("k", "v")
  /\ lineEntry "k:'v" = Some ("k", "'v")
  /\ lineEntry " k :  ''  " = Some ("k", "")
  /\ lineEntry "no colon" = None.
Proof. repeat split; vm_compute; reflexivity. Qed.

(** C4 fails on the code: the line [key:] followed by one double quote makes
    the slice expression of the quote stripping panic ([value[1:0]]), and
    with it the file pass and [Load]. *)
Theorem file_pass_lone_quote :
  scanLine loneQuoteText ∅ = Panic
  /\ scanLines ["name: fromFile"; loneQuoteText] ∅ = Panic
  /\ Load (testProcess [] [] loneQuoteFile) fresh (PtrStruct nameStruct) "mage.config"
     = Panics.
Proof. repeat split; vm_compute; reflexivity. Qed.

(** ** The argument scanner *)

Lemma TrimLeft_dashes (n : nat) (s : string) :
  TrimLeft (dashes n +:+ s) argPrefix = TrimLeft s argPrefix.
Proof. induction n as [|n IH]; [done|]. cbn [dashes]. by rewrite append_cons. Qed.

Lemma TrimLeft_no_dash (s : string) :
  HasPrefix s argPrefix = false -> TrimLeft s argPrefix = s.
Proof.
  destruct s as [|c s]; [done|]. cbn. rewrite andb_true_r, orb_false_r.
  by intros ->.
Qed.

Lemma Index_after_name (name rest : string) :
  Index name "=" = -1 -> Index (name +:+ String "=" rest) "=" = len name.
Proof.
  induction name as [|c name IH]; [done|].
  rewrite append_cons. cbn [Index HasPrefix]. rewrite !andb_true_r.
  destruct (byte_eqb c "="); [done|]. cbv zeta.
  pose proof (Index_lower_bound name "=") as Hlow.
  destruct (Z.ltb_spec (Index name "=") 0) as [Hneg|Hpos]; [|lia].
  intros _. rewrite IH by lia. unfold len. cbn [String.length].
  rewrite (proj2 (Z.ltb_ge _ _)) by lia. lia.
Qed.

Lemma take_append (s t : string) : take (String.length s) (s +:+ t) = s.
Proof.
  induction s as [|c s IH]; [by destruct t|].
  rewrite append_cons. cbn [String.length take]. by rewrite IH.
Qed.

Lemma drop_append (s t : string) (c : ascii) :
  drop (S (String.length s)) (s +:+ String c t) = t.
Proof.
  induction s as [|d s IH]; [done|].
  rewrite append_cons. exact IH.
Qed.

Lemma scanArgs_skip argName isBool (tok : string) (rest : list string) :
  matches argName tok = false ->
  scanArgs argName isBool (tok :: rest) = scanArgs argName isBool rest.
Proof.
  unfold matches. cbn [scanArgs]. cbv zeta.
  destruct (0 <? Index (TrimLeft tok argPrefix) "=").
  - intros Hkey%bool_decide_eq_false. by rewrite decide_False.
  - intros Harg%bool_decide_eq_false. by rewrite decide_False.
Qed.

Lemma scanArgs_skip_all argName isBool (pre rest : list string) :
  Forall (λ tok, matches argName tok = false) pre ->
  scanArgs argName isBool (pre ++ rest) = scanArgs argName isBool rest.
Proof.
  induction 1 as [|tok pre Htok _ IH]; [done|].
  cbn [app]. by rewrite scanArgs_skip.
Qed.

(** A token [-name=value] reached by the scan gives [value]. *)
Lemma scanArgs_equals argName isBool (n : nat) (value : string) (rest : list string) :
  argName <> "" ->
  HasPrefix argName argPrefix = false ->
  Index argName "=" = -1 ->
  scanArgs argName isBool ((dashes n +:+ argName +:+ String "=" value) :: rest) = value.
Proof.
  intros Hne Hdash Heq. cbn [scanArgs]. cbv zeta.
  rewrite TrimLeft_dashes, TrimLeft_no_dash.
  2:{ destruct argName as [|c argName]; [done|]. by rewrite append_cons. }
  rewrite Index_after_name by done.
  assert ((0 <? len argName) = true) as ->.
  { apply Z.ltb_lt. destruct argName; [done|]. unfold len. cbn [String.length]. lia. }
  unfold len. rewrite Nat2Z.id.
  replace (Z.to_nat (Z.of_nat (String.length argName) + 1))
    with (S (String.length argName)) by lia.
  rewrite take_append, drop_append. by rewrite decide_True.
Qed.

(** A token [-name] reached by the scan: the next token when there is one
    that does not begin with a dash; else [true] for a boolean. *)
Lemma scanArgs_standalone argName isBool (n : nat) (rest : list string) :
  HasPrefix argName argPrefix = false ->
  Index argName "=" <= 0 ->
  scanArgs argName isBool ((dashes n +:+ argName) :: rest)
  = match rest with
    | next :: _ =>
        if negb (HasPrefix next argPrefix) then next
        else if isBool then "true" else scanArgs argName isBool rest
    | [] => if isBool then "true" else ""
    end.
Proof.
  intros Hdash Heq. cbn [scanArgs]. cbv zeta.
  rewrite TrimLeft_dashes, TrimLeft_no_dash by done.
  rewrite (proj2 (Z.ltb_ge _ _)) by lia. rewrite decide_True by done.
  destruct rest as [|next rest]; [|done]. by destruct isBool.
Qed.

Section Arguments.
Context `{External}.

(** C6: when the first token that matches the argument name of a field is
    [-name=] or [--name=] with nothing after the equals sign, or [-name]
    followed by the empty string, the scanner returns the empty string, which
    the argument pass reads as no value: the pass leaves the content of the
    field and its flag as they were.  This holds for boolean fields too. *)
Theorem empty_argument_value p field prog pre post (n : nat) :
  getTagOrDefault field tagArg <> "" ->
  HasPrefix (getTagOrDefault field tagArg) argPrefix = false ->
  Index (getTagOrDefault field tagArg) "=" = -1 ->
  Forall (λ tok, matches (getTagOrDefault field tagArg) tok = false) pre ->
  Args p = prog :: pre ++ (dashes n +:+ getTagOrDefault field tagArg +:+ "=") :: post
  \/ Args p = prog :: pre ++ (dashes n +:+ getTagOrDefault field tagArg) :: "" :: post ->
  getArgValue (Args p) (getTagOrDefault field tagArg) (bool_decide (Typ field = TBool)) = ""
  /\ (forall v (isSet : IsSet), loadFromArgs_field p field v isSet = Ok (v, isSet))
  /\ (forall (cfg cfg' : Struct) (isSet isSet' : IsSet) i v,
        NoDup (Name <$> (fst <$> cfg)) ->
        loadFromArgs p cfg isSet = (cfg', isSet', Done) ->
        cfg !! i = Some (field, v) ->
        cfg' !! i = Some (field, v) /\ isSet' !! Name field = isSet !! Name field).
Proof.
  intros Hne Hdash Heq Hpre Hargs.
  assert (getArgValue (Args p) (getTagOrDefault field tagArg)
            (bool_decide (Typ field = TBool)) = "") as Hvalue.
  { unfold getArgValue. destruct Hargs as [-> | ->]; cbn [tail];
      rewrite scanArgs_skip_all by done.
    - by apply scanArgs_equals.
    - rewrite scanArgs_standalone by (done || lia). done. }
  assert (argCandidate p field = None) as Hcand
    by (unfold argCandidate; by rewrite Hvalue).
  split; [done|]. split.
  - intros v isSet. unfold loadFromArgs_field. by rewrite Hvalue.
  - intros cfg cfg' isSet isSet' i v Hnodup Hrun Hi.
    unfold loadFromArgs in Hrun.
    rewrite (setFields_ext _ (applyCandidate (argCandidate p))) in Hrun
      by (intros; apply loadFromArgs_field_candidate).
    apply setFields_Done in Hrun as [Hsteps Hflags].
    destruct (fieldStep_lookup _ _ _ _ _ _ Hsteps Hi) as (v' & Hi' & Hv').
    rewrite Hcand in Hv'. subst v'. split; [done|].
    rewrite Hflags, supplied_NoDup, Hcand; [|done|].
    + by rewrite bool_decide_eq_false_2 by (by intros [? ?]).
    + apply list_elem_of_fmap. exists (field, v). split; [done|].
      by eapply list_elem_of_lookup_2.
Qed.

(** C8: when the first token that matches the argument name of a boolean
    field is [-name] or [--name] with no token after it, or with a next token
    that begins with a dash, the scanner returns the text [true]; the
    argument pass stores [true] in the field and marks it set. *)
Theorem bare_boolean_flag p field prog pre post (n : nat) :
  Typ field = TBool ->
  HasPrefix (getTagOrDefault field tagArg) argPrefix = false ->
  Index (getTagOrDefault field tagArg) "=" <= 0 ->
  Forall (λ tok, matches (getTagOrDefault field tagArg) tok = false) pre ->
  Args p = prog :: pre ++ (dashes n +:+ getTagOrDefault field tagArg) :: post ->
  head post = None \/ (exists next, head post = Some next /\ HasPrefix next argPrefix = true) ->
  getArgValue (Args p) (getTagOrDefault field tagArg) (bool_decide (Typ field = TBool))
  = "true"
  /\ (forall v (isSet : IsSet) b,
        isSet !! Name field = Some b ->
        loadFromArgs_field p field v isSet
        = Ok (Scalar (VBool true), <[Name field := true]> isSet))
  /\ (forall (cfg cfg' : Struct) (isSet' : IsSet) file i v,
        loadPasses p cfg file = (cfg', isSet', Done) ->
        cfg !! i = Some (field, v) ->
        cfg' !! i = Some (field, Scalar (VBool true))
        /\ isSet' !! Name field = Some true).
Proof.
  intros Hbool Hdash Heq Hpre Hargs Hpost.
  assert (getArgValue (Args p) (getTagOrDefault field tagArg)
            (bool_decide (Typ field = TBool)) = "true") as Hvalue.
  { unfold getArgValue. rewrite Hargs. cbn [tail].
    rewrite scanArgs_skip_all by done. rewrite scanArgs_standalone by done.
    rewrite bool_decide_eq_true_2 by done.
    destruct post as [|next post]; [done|].
    destruct Hpost as [[=]|(next' & [= <-] & ->)]. done. }
  assert (setFieldByKind field "true" = Ok (Scalar (VBool true))) as Hconv
    by (unfold setFieldByKind; by rewrite Hbool).
  assert (argCandidate p field = Some "true") as Hcand
    by (unfold argCandidate; by rewrite Hvalue).
  split; [done|]. split.
  - intros v isSet b Hentry. unfold loadFromArgs_field. rewrite Hvalue.
    rewrite decide_False by done. rewrite Hconv. cbn.
    unfold markSet. by rewrite Hentry.
  - intros cfg cfg' isSet' file i v Hrun Hi.
    destruct (loadPasses_values _ _ _ _ _ _ _ _ Hrun Hi) as (v' & Hi' & Hv').
    unfold winner in Hv'. rewrite Hcand, Hconv in Hv'. injection Hv' as <-.
    split; [done|].
    rewrite (loadPasses_flags _ _ _ _ _ (Name field) Hrun).
    rewrite (supplied_elem (argCandidate p)); [done| |by rewrite Hcand].
    apply list_elem_of_fmap. exists (field, v). split; [done|].
    by eapply list_elem_of_lookup_2.
Qed.

End Arguments.

Lemma empty_argument_value_witness :
  getArgValue (Args (testProcess ["-dfield0=true"; "--field1="] [] noFiles))
              (getTagOrDefault Field1 tagArg) (bool_decide (Typ Field1 = TBool)) = ""
  /\ (forall v (isSet : IsSet),
        loadFromArgs_field (testProcess ["-dfield0=true"; "--field1="] [] noFiles)
          Field1 v isSet = Ok (v, isSet))
  /\ (forall (cfg cfg' : Struct) (isSet isSet' : IsSet) i v,
        NoDup (Name <$> (fst <$> cfg)) ->
        loadFromArgs (testProcess ["-dfield0=true"; "--field1="] [] noFiles) cfg isSet
        = (cfg', isSet', Done) ->
        cfg !! i = Some (Field1, v) ->
        cfg' !! i = Some (Field1, v) /\ isSet' !! Name Field1 = isSet !! Name Field1).
Proof.
  apply (empty_argument_value (testProcess ["-dfield0=true"; "--field1="] [] noFiles)
           Field1 "cmd" ["-dfield0=true"] [] 2).
  - vm_compute. discriminate.
  - reflexivity.
  - reflexivity.
  - repeat constructor.
  - left. reflexivity.
Defined.

(** With [--field1=] the record of the package's test keeps the default of
    [Field1]. *)
Example empty_equals_keeps_default :
  exists g, Load (testProcess ["-dfield0=true"; "-field6=x"; "--field1="] [] noFiles)
                 fresh (PtrStruct (zeroStruct TestConfig_fields)) ""
            = Return None (PtrStruct (zip TestConfig_fields
                [Scalar (VBool true); Scalar (VBool false); Scalar (VBool false);
                 Scalar (VString "default1"); Scalar (VInt 2);
                 Scalar (VString "envDefault"); Scalar (VString "fileDefault");
                 Scalar (VString "allDefault"); Scalar (VString "x")])) g.
Proof. eexists. vm_compute. reflexivity. Qed.

(** A boolean flag followed by an empty token does not become true, and a
    later token with a value is not looked at. *)
Example empty_token_after_bool_flag :
  getArgValue ["cmd"; "--field0"; ""; "--field0=true"] "field0" true = ""
  /\ exists g, Load (testProcess ["-dfield0=true"; "-field6=x"; "--field0"; ""; "--field0=true"]
                                 [] noFiles)
                    fresh (PtrStruct (zeroStruct TestConfig_fields)) ""
               = Return None (PtrStruct (zip TestConfig_fields
                   [Scalar (VBool true); Scalar (VBool false); Scalar (VBool false);
                    Scalar (VString "default1"); Scalar (VInt 2);
                    Scalar (VString "envDefault"); Scalar (VString "fileDefault");
                    Scalar (VString "allDefault"); Scalar (VString "x")])) g.
Proof. split; [reflexivity|]. eexists. vm_compute. reflexivity. Qed.

Lemma bare_boolean_flag_witness :
  getArgValue (Args (testProcess ["-dfield0=true"; "--field0"; "-field6=required"] [] noFiles))
              (getTagOrDefault Field0 tagArg) (bool_decide (Typ Field0 = TBool)) = "true"
  /\ (forall v (isSet : IsSet) b,
        isSet !! Name Field0 = Some b ->
        loadFromArgs_field
          (testProcess ["-dfield0=true"; "--field0"; "-field6=required"] [] noFiles)
          Field0 v isSet
        = Ok (Scalar (VBool true), <[Name Field0 := true]> isSet))
  /\ (forall (cfg cfg' : Struct) (isSet' : IsSet) file i v,
        loadPasses (testProcess ["-dfield0=true"; "--field0"; "-field6=required"] [] noFiles)
                   cfg file = (cfg', isSet', Done) ->
        cfg !! i = Some (Field0, v) ->
        cfg' !! i = Some (Field0, Scalar (VBool true))
        /\ isSet' !! Name Field0 = Some true).
Proof.
  apply (bare_boolean_flag
           (testProcess ["-dfield0=true"; "--field0"; "-field6=required"] [] noFiles)
           Field0 "cmd" ["-dfield0=true"] ["-field6=required"] 2).
  - reflexivity.
  - reflexivity.
  - vm_compute. discriminate.
  - repeat constructor.
  - reflexivity.
  - right. exists "-field6=required". split; reflexivity.
Defined.

(** ** Opening the file *)

Section FileAccess.
Context `{External}.

Lemma Load_file_failure p g (cfg cfg1 : Struct) (isSet1 : IsSet) file e :
  isHelpRequested (Args p) = false ->
  isLoaded g = false ->
  mageCommandGiven (Args p) = false ->
  setDefault cfg (initializeIsSet cfg ∅) = (cfg1, isSet1, Done) ->
  loadFromFile p file cfg1 isSet1 = (cfg1, isSet1, Failed e) ->
  Load p g (PtrStruct cfg) file = Return (Some e) (PtrStruct cfg1) g.
Proof.
  intros Hhelp Hloaded Hmage Hdefault Hfile.
  rewrite Load_passes by done. unfold loadPasses.
  rewrite Hdefault. cbn [andThen]. by rewrite Hfile.
Qed.

(** C7: a path to a file that does not exist makes the file pass do nothing
    and [Load] behave as with no path at all; any other failure to open the
    file, and any failure while its lines are read, is the error the file
    pass returns, and [Load] returns it to the caller once the defaults pass
    has come through. *)
Theorem file_open_errors p file :
  file <> "" ->
  (Open p file = inl ErrNotExist ->
     (forall (cfg : Struct) (isSet : IsSet),
        loadFromFile p file cfg isSet = (cfg, isSet, Done))
     /\ (forall g c, Load p g c file = Load p g c ""))
  /\ (forall msg, Open p file = inl (ErrOther msg) ->
        (forall (cfg : Struct) (isSet : IsSet),
           loadFromFile p file cfg isSet
           = (cfg, isSet, Failed (FileError (ErrOther msg))))
        /\ (forall g (cfg cfg1 : Struct) (isSet1 : IsSet),
              isHelpRequested (Args p) = false ->
              isLoaded g = false ->
              mageCommandGiven (Args p) = false ->
              setDefault cfg (initializeIsSet cfg ∅) = (cfg1, isSet1, Done) ->
              Load p g (PtrStruct cfg) file
              = Return (Some (FileError (ErrOther msg))) (PtrStruct cfg1) g))
  /\ (forall f fileContent err,
        Open p file = inr f ->
        scanLines (lines f) ∅ = Ok fileContent ->
        scanErr f = Some err ->
        (forall (cfg : Struct) (isSet : IsSet),
           loadFromFile p file cfg isSet = (cfg, isSet, Failed (FileError err)))
        /\ (forall g (cfg cfg1 : Struct) (isSet1 : IsSet),
              isHelpRequested (Args p) = false ->
              isLoaded g = false ->
              mageCommandGiven (Args p) = false ->
              setDefault cfg (initializeIsSet cfg ∅) = (cfg1, isSet1, Done) ->
              Load p g (PtrStruct cfg) file
              = Return (Some (FileError err)) (PtrStruct cfg1) g)).
Proof.
  intros Hfile. split; [|split].
  - intros Hopen.
    assert (forall (cfg : Struct) (isSet : IsSet),
              loadFromFile p file cfg isSet = (cfg, isSet, Done)) as Hnoop.
    { intros cfg isSet. unfold loadFromFile.
      rewrite decide_False by done. by rewrite Hopen. }
    split; [done|]. intros g c. unfold Load, loadPasses.
    destruct c as [cfg| | |]; [|done..].
    destruct (setDefault cfg (initializeIsSet cfg ∅)) as [[cfg1 isSet1] [|e|]];
      [|done..].
    cbn [andThen]. rewrite Hnoop. unfold loadFromFile. by rewrite decide_True.
  - intros msg Hopen.
    assert (forall (cfg : Struct) (isSet : IsSet),
              loadFromFile p file cfg isSet
              = (cfg, isSet, Failed (FileError (ErrOther msg)))) as Hfail.
    { intros cfg isSet. unfold loadFromFile.
      rewrite decide_False by done. by rewrite Hopen. }
    split; [done|]. intros g cfg cfg1 isSet1 Hhelp Hloaded Hmage Hdefault.
    by eapply Load_file_failure.
  - intros f fileContent err Hopen Hscan Herr.
    assert (forall (cfg : Struct) (isSet : IsSet),
              loadFromFile p file cfg isSet = (cfg, isSet, Failed (FileError err)))
      as Hfail.
    { intros cfg isSet. unfold loadFromFile.
      rewrite decide_False by done. by rewrite Hopen, Hscan, Herr. }
    split; [done|]. intros g cfg cfg1 isSet1 Hhelp Hloaded Hmage Hdefault.
    by eapply Load_file_failure.
Qed.

End FileAccess.

(** A missing file lets the later passes and the defaults decide; a file
    that cannot be opened or read ends the call with the error. *)
Example file_missing_denied_broken :
  (exists g, Load (testProcess [] [] noFiles) fresh (PtrStruct nameStruct) "mage.config"
             = Return None (PtrStruct [(nameField, Scalar (VString "fromDefault"))]) g)
  /\ Load (testProcess ["--name=fromArg"] [] deniedFile) fresh (PtrStruct nameStruct)
          "mage.config"
     = Return (Some (FileError (ErrOther "permission denied")))
              (PtrStruct [(nameField, Scalar (VString "fromDefault"))]) fresh
  /\ Load (testProcess ["--name=fromArg"] [] brokenFile) fresh (PtrStruct nameStruct)
          "mage.config"
     = Return (Some (FileError (ErrOther "input/output error")))
              (PtrStruct [(nameField, Scalar (VString "fromDefault"))]) fresh.
Proof. split; [eexists|split]; vm_compute; reflexivity. Qed.

Lemma file_open_errors_witness :
  (forall (cfg : Struct) (isSet : IsSet),
     loadFromFile (testProcess [] [] noFiles) "mage.config" cfg isSet = (cfg, isSet, Done))
  /\ (forall g c, Load (testProcess [] [] noFiles) g c "mage.config"
                  = Load (testProcess [] [] noFiles) g c "").
Proof.
  apply (file_open_errors (testProcess [] [] noFiles) "mage.config").
  - discriminate.
  - reflexivity.
Defined.

(** ** Mapping fields *)

Section MapFields.
Context `{External}.

Lemma mapLoop_entries elem (tokens : list string) (kvs : list (string * scalar))
    (m : gmap string scalar) :
  Forall2 (pairOf elem) tokens kvs ->
  mapLoop elem tokens m = Ok (foldl (λ m kv, <[kv.1 := kv.2]> m) m kvs).
Proof.
  intros Hpairs. revert m.
  induction Hpairs as [|token [key v] tokens kvs (k & vtext & Hsplit & Hkey & Hconv & Htype) _ IH];
    intros m; [done|].
  cbn [mapLoop foldl]. rewrite Hsplit. cbn in Hkey, Hconv, Htype.
  rewrite Hconv. cbn. unfold assignable. rewrite decide_True by done. cbn.
  rewrite IH. by rewrite Hkey.
Qed.

Lemma mapLoop_malformed elem (pre post : list string) (token : string)
    (m : gmap string scalar) :
  Forall (wellFormedPair elem) pre ->
  List.length (SplitN token kvSeparator 2) <> 2%nat ->
  mapLoop elem (pre ++ token :: post) m = Err (InvalidMapValue token).
Proof.
  intros Hpre Htoken. revert m.
  induction Hpre as [|first pre [[key v] (k & vtext & Hsplit & Hkey & Hconv & Htype)] _ IH];
    intros m.
  - cbn [app mapLoop].
    destruct (SplitN token kvSeparator 2) as [|part0 [|part1 [|part2 parts]]]; done.
  - cbn [app mapLoop]. rewrite Hsplit. cbn in Hkey, Hconv, Htype.
    rewrite Hconv. cbn. unfold assignable. rewrite decide_True by done. cbn.
    apply IH.
Qed.

(** C9: the text of a mapping field is split at the commas into pair-tokens
    and every pair-token at its first colon.  The first pair-token that does
    not split into two parts, all those before it being well formed, fails
    the field with the error that names this token.  When all pair-tokens are
    well formed the field is the map with, for each of them in order, the
    trimmed key text as the key and the converted trimmed value text as the
    value. *)
Theorem map_conversion field elem (strVal : string) :
  Typ field = TMap elem ->
  (forall (pre : list string) token post,
     Split strVal sliceSeparator = (pre ++ token :: post)%list ->
     Forall (wellFormedPair elem) pre ->
     List.length (SplitN token kvSeparator 2) <> 2%nat ->
     setFieldByKind field strVal = Err (InvalidMapValue token))
  /\ (forall kvs,
        Forall2 (pairOf elem) (Split strVal sliceSeparator) kvs ->
        setFieldByKind field strVal = Ok (MapOf (mapOfEntries kvs))).
Proof.
  intros Htype. unfold setFieldByKind. rewrite Htype. split.
  - intros pre token post -> Hpre Htoken. by rewrite mapLoop_malformed.
  - intros kvs Hpairs. by rewrite (mapLoop_entries _ _ kvs).
Qed.

End MapFields.

Lemma map_conversion_witness :
  (forall (pre : list string) token post,
     Split "key1,key2:2" sliceSeparator = (pre ++ token :: post)%list ->
     Forall (wellFormedPair TInt) pre ->
     List.length (SplitN token kvSeparator 2) <> 2%nat ->
     setFieldByKind intMapField "key1,key2:2" = Err (InvalidMapValue token))
  /\ (forall kvs,
        Forall2 (pairOf TInt) (Split "key1,key2:2" sliceSeparator) kvs ->
        setFieldByKind intMapField "key1,key2:2" = Ok (MapOf (mapOfEntries kvs))).
Proof.
  apply (map_conversion intMapField TInt "key1,key2:2").
  reflexivity.
Defined.

(** The malformed text of the package's test names [key1]; a well-formed
    text gives the map, with keys kept as text and trimmed. *)
Example map_text_key1 :
  setFieldByKind intMapField "key1,key2:2" = Err (InvalidMapValue "key1")
  /\ setFieldByKind intMapField " key1 : 1 ,key2:2"
     = Ok (MapOf (mapOfEntries [("key1", VInt 1); ("key2", VInt 2)]))
  /\ setFieldByKind intMapField "key1:1,key2:x"
     = Err (NumError "ParseInt" "x" ErrSyntax).
Proof. repeat split; vm_compute; reflexivity. Qed.

(** ** The earlier loader *)

Section Earlier.
Context `{External}.

Lemma setFields_steps (R : StructField * value -> StructField * value -> Prop)
    setValue (cfg cfg' : Struct) (isSet isSet' : IsSet) :
  (forall field v s v' s', setValue field v s = Ok (v', s') -> R (field, v) (field, v')) ->
  setFields setValue cfg isSet = (cfg', isSet', Done) ->
  Forall2 R cfg cfg'.
Proof.
  intros Hstep. revert cfg' isSet isSet'.
  induction cfg as [|[field v] rest IH]; intros cfg' isSet isSet' Hrun.
  - injection Hrun as <- <-. constructor.
  - cbn [setFields] in Hrun.
    destruct (setValue field v isSet) as [[v' s']| |] eqn:Hfield; [|done..].
    destruct (setFields setValue rest s') as [[rest' isSet1] st] eqn:Hrest.
    injection Hrun as <- <- ->. constructor; eauto.
Qed.

Lemma setFields_flags_kept setValue (cfg cfg' : Struct) (isSet isSet' : IsSet) :
  (forall field v s v' s', setValue field v s = Ok (v', s') -> s' = s) ->
  setFields setValue cfg isSet = (cfg', isSet', Done) ->
  isSet' = isSet.
Proof.
  intros Hstep. revert cfg' isSet isSet'.
  induction cfg as [|[field v] rest IH]; intros cfg' isSet isSet' Hrun.
  - by injection Hrun as <- <-.
  - cbn [setFields] in Hrun.
    destruct (setValue field v isSet) as [[v' s']| |] eqn:Hfield; [|done..].
    destruct (setFields setValue rest s') as [[rest' isSet1] st] eqn:Hrest.
    injection Hrun as <- <- ->.
    apply Hstep in Hfield as ->. eauto.
Qed.

Lemma Legacy_setDefault_field_Ok field v (s : IsSet) v' s' :
  Legacy.setDefault_field field v s = Ok (v', s') ->
  fieldStep defaultCandidate (field, v) (field, v') /\ s' = s.
Proof.
  unfold Legacy.setDefault_field, fieldStep, defaultCandidate. cbn [fst snd].
  destruct (decide (Tag_Get field tagDefault = "")); [by intros [= <- <-]|].
  destruct (setFieldByKind field _) as [v1| |]; [|done..]. by intros [= <- <-].
Qed.

(** A completed run of the passes of the earlier loader: the contents change
    as in the loader above, and the flags are those of the file, environment
    and argument passes alone. *)
Lemma Legacy_loadPasses_Done p file (cfg cfg' : Struct) (isSet' : IsSet) :
  Legacy.loadPasses p cfg file = (cfg', isSet', Done) ->
  exists cfg1 cfg2 isSet2 cfg3 isSet3,
    Forall2 (fieldStep defaultCandidate) cfg cfg1
    /\ setFields (applyCandidate (fileCandidate p file)) cfg1 (initializeIsSet cfg ∅)
       = (cfg2, isSet2, Done)
    /\ setFields (applyCandidate (envCandidate p)) cfg2 isSet2 = (cfg3, isSet3, Done)
    /\ setFields (applyCandidate (argCandidate p)) cfg3 isSet3 = (cfg', isSet', Done).
Proof.
  unfold Legacy.loadPasses. intros Hrun.
  apply andThen_Done in Hrun as (cfg3 & isSet3 & Hrun & Hargs).
  apply andThen_Done in Hrun as (cfg2 & isSet2 & Hrun & Henv).
  apply andThen_Done in Hrun as (cfg1 & isSet1 & Hdefault & Hfile).
  unfold Legacy.setDefault in Hdefault.
  assert (isSet1 = initializeIsSet cfg ∅) as ->.
  { eapply setFields_flags_kept; [|done].
    intros field v s v' s' Hstep. by apply Legacy_setDefault_field_Ok in Hstep as [_ ->]. }
  exists cfg1, cfg2, isSet2, cfg3, isSet3. repeat split.
  - eapply setFields_steps; [|done].
    intros field v s v' s' Hstep. by apply Legacy_setDefault_field_Ok in Hstep as [? _].
  - by apply loadFromFile_Done.
  - rewrite <- Henv. symmetry. apply setFields_ext.
    intros. apply loadFromEnv_field_candidate.
  - rewrite <- Hargs. symmetry. apply setFields_ext.
    intros. apply loadFromArgs_field_candidate.
Qed.

(** X2: in the earlier loader every successful [Load] has run the four passes,
    and the content of every field is the conversion of the winning
    candidate, or the content the field had. *)
Theorem Legacy_precedence_law p g (cfg cfg' : Struct) file g' i field v :
  Legacy.Load p g (PtrStruct cfg) file = Return None (PtrStruct cfg') g' ->
  cfg !! i = Some (field, v) ->
  exists v',
    cfg' !! i = Some (field, v')
    /\ match winner p file field with
       | Some s => setFieldByKind field s = Ok v'
       | None => v' = v
       end.
Proof.
  unfold Legacy.Load. destruct (isHelpRequested (Args p)); [done|].
  destruct (Legacy.loadPasses p cfg file) as [[cfg1 isSet1] [|e|]] eqn:Hrun; [|done..].
  intros [= _ <- _] Hi.
  apply Legacy_loadPasses_Done in Hrun
    as (c1 & c2 & s2 & c3 & s3 & H1 & H2 & H3 & H4).
  apply setFields_Done in H2 as [H2 _]. apply setFields_Done in H3 as [H3 _].
  apply setFields_Done in H4 as [H4 _].
  destruct (fieldStep_lookup _ _ _ _ _ _ H1 Hi) as (v1 & Hi1 & Hv1).
  destruct (fieldStep_lookup _ _ _ _ _ _ H2 Hi1) as (v2 & Hi2 & Hv2).
  destruct (fieldStep_lookup _ _ _ _ _ _ H3 Hi2) as (v3 & Hi3 & Hv3).
  destruct (fieldStep_lookup _ _ _ _ _ _ H4 Hi3) as (v4 & Hi4 & Hv4).
  exists v4. split; [done|]. by eapply passStep_winner.
Qed.

(** X1: in the earlier loader the flag of a field is true after the four passes
    exactly when the file, the environment or the arguments had a value for
    it; a default literal alone leaves the flag false. *)
Theorem Legacy_set_tracking p file (cfg cfg' : Struct) (isSet' : IsSet) field v :
  NoDup (Name <$> (fst <$> cfg)) ->
  Legacy.loadPasses p cfg file = (cfg', isSet', Done) ->
  (field, v) ∈ cfg ->
  isSet' !! Name field
  = Some (bool_decide (is_Some (argCandidate p field))
          || bool_decide (is_Some (envCandidate p field))
          || bool_decide (is_Some (fileCandidate p file field))).
Proof.
  intros Hnodup Hrun Hin.
  assert (field ∈ fst <$> cfg) as Hfield
    by (apply list_elem_of_fmap; by exists (field, v)).
  apply Legacy_loadPasses_Done in Hrun
    as (c1 & c2 & s2 & c3 & s3 & H1 & H2 & H3 & H4).
  apply fieldStep_fields in H1.
  apply setFields_Done in H2 as [S2 F2]. apply setFields_Done in H3 as [S3 F3].
  apply setFields_Done in H4 as [S4 F4]. apply fieldStep_fields in S2, S3.
  rewrite F4, F3, F2, initializeIsSet_lookup, S3, S2, H1.
  rewrite !supplied_NoDup by done.
  rewrite (bool_decide_eq_true_2 (Name field ∈ _)) by (by apply list_elem_of_fmap_2).
  by repeat destruct (bool_decide (is_Some _)).
Qed.

End Earlier.

Lemma Legacy_precedence_law_witness :
  exists v',
    [(nameField, Scalar (VString "fromArg"))] !! 0%nat = Some (nameField, v')
    /\ match winner (wiredProcess ["--name=fromArg"; "-l"]) "mage.config" nameField with
       | Some s => setFieldByKind nameField s = Ok v'
       | None => v' = Scalar (VString "")
       end.
Proof.
  apply (Legacy_precedence_law (wiredProcess ["--name=fromArg"; "-l"]) fresh nameStruct
           [(nameField, Scalar (VString "fromArg"))] "mage.config" fresh).
  - vm_compute. reflexivity.
  - reflexivity.
Defined.

Lemma Legacy_set_tracking_witness :
  (Legacy.loadPasses defaultsProcess (zeroStruct TestConfig_fields) "").1.2 !! Name Field1
  = Some (bool_decide (is_Some (argCandidate defaultsProcess Field1))
          || bool_decide (is_Some (envCandidate defaultsProcess Field1))
          || bool_decide (is_Some (fileCandidate defaultsProcess "" Field1))).
Proof.
  apply (Legacy_set_tracking defaultsProcess "" (zeroStruct TestConfig_fields)
           (Legacy.loadPasses defaultsProcess (zeroStruct TestConfig_fields) "").1.1
           _ Field1 (Scalar (VString ""))).
  - compute_done.
  - vm_compute. reflexivity.
  - apply list_elem_of_lookup. exists 3%nat. reflexivity.
Defined.

Lemma scanLines_panic_witness :
  scanLines (["field4: file4"] ++ loneQuoteText :: ["field5: file5"]) ∅ = Panic.
Proof.
  apply (scanLines_panic ["field4: file4"] ["field5: file5"] loneQuoteText ∅).
  - repeat constructor.
  - reflexivity.
Defined.

(** ** More on the argument scanner *)

(** X4: the first token that matches the name and has the form
    [-name=value] gives the text after its first equals sign, further
    equals signs included, for boolean and other fields alike. *)
Theorem argument_with_equals prog (pre post : list string) (n : nat) name value isBool :
  name <> "" ->
  HasPrefix name argPrefix = false ->
  Index name "=" = -1 ->
  Forall (λ tok, matches name tok = false) pre ->
  getArgValue (prog :: pre ++ (dashes n +:+ name +:+ String "=" value) :: post) name isBool
  = value.
Proof.
  intros Hne Hdash Heq Hpre. unfold getArgValue. cbn [tail].
  rewrite scanArgs_skip_all by done. by apply scanArgs_equals.
Qed.

Lemma argument_with_equals_witness :
  getArgValue ("cmd" :: ["-v"; "target"] ++ (dashes 2 +:+ "url" +:+ String "=" "a=b") :: ["x"])
              "url" false
  = "a=b".
Proof.
  apply (argument_with_equals "cmd" ["-v"; "target"] ["x"] 2 "url" "a=b" false).
  - discriminate.
  - reflexivity.
  - reflexivity.
  - repeat constructor.
Defined.

(** X5: the first token that matches the name and has the form [-name]
    gives the token after it when that token does not begin with a dash,
    whatever it is; a boolean field takes it as its value too. *)
Theorem argument_with_next_token prog (pre post : list string) (n : nat) name next isBool :
  HasPrefix name argPrefix = false ->
  Index name "=" <= 0 ->
  Forall (λ tok, matches name tok = false) pre ->
  HasPrefix next argPrefix = false ->
  getArgValue (prog :: pre ++ (dashes n +:+ name) :: next :: post) name isBool = next.
Proof.
  intros Hdash Heq Hpre Hnext. unfold getArgValue. cbn [tail].
  rewrite scanArgs_skip_all by done. rewrite scanArgs_standalone by done.
  by rewrite Hnext.
Qed.

Lemma argument_with_next_token_witness :
  getArgValue ("cmd" :: ["-dfield0=true"] ++ (dashes 2 +:+ "field0") :: "build" :: [])
              "field0" true
  = "build".
Proof.
  apply (argument_with_next_token "cmd" ["-dfield0=true"] [] 2 "field0" "build" true).
  - reflexivity.
  - vm_compute. discriminate.
  - repeat constructor.
  - reflexivity.
Defined.

(** A boolean flag before a target name takes the target name for its
    value, and the call fails. *)
Example bool_flag_before_target :
  exists s g,
    Load (testProcess ["-dfield0=true"; "-field6=x"; "--field0"; "build"] [] noFiles)
         fresh (PtrStruct (zeroStruct TestConfig_fields)) ""
    = Return (Some (ParseField (NumError "ParseBool" "build" ErrSyntax))) s g.
Proof. eexists _, _. vm_compute. reflexivity. Qed.

(** X6: when no token after the program name matches the name, the scanner
    returns the empty string; the program name itself is never looked at. *)
Theorem argument_absent prog (rest : list string) name isBool :
  Forall (λ tok, matches name tok = false) rest ->
  getArgValue (prog :: rest) name isBool = "".
Proof.
  intros Hrest. unfold getArgValue. cbn [tail].
  rewrite <- (app_nil_r rest). by rewrite scanArgs_skip_all.
Qed.

Lemma argument_absent_witness :
  getArgValue ("--name=x" :: ["-v"; "target"; "--other=1"]) "name" true = "".
Proof.
  apply (argument_absent "--name=x" ["-v"; "target"; "--other=1"] "name" true).
  repeat constructor.
Defined.

(** X7: for a field that is not boolean, a token [-name] that is last or
    followed by a token beginning with a dash is passed over, and the scan
    goes on with the tokens after it. *)
Theorem bare_flag_passed_over prog (pre post : list string) (n : nat) name :
  HasPrefix name argPrefix = false ->
  Index name "=" <= 0 ->
  Forall (λ tok, matches name tok = false) pre ->
  head post = None \/ (exists next, head post = Some next /\ HasPrefix next argPrefix = true) ->
  getArgValue (prog :: pre ++ (dashes n +:+ name) :: post) name false
  = getArgValue (prog :: post) name false.
Proof.
  intros Hdash Heq Hpre Hpost. unfold getArgValue. cbn [tail].
  rewrite scanArgs_skip_all by done. rewrite scanArgs_standalone by done.
  destruct post as [|next post]; [done|].
  destruct Hpost as [[=]|(next' & [= <-] & ->)]. done.
Qed.

Lemma bare_flag_passed_over_witness :
  getArgValue ("cmd" :: ["target"] ++ (dashes 1 +:+ "name") :: ["-v"; "--name=late"])
              "name" false
  = getArgValue ("cmd" :: ["-v"; "--name=late"]) "name" false.
Proof.
  apply (bare_flag_passed_over "cmd" ["target"] ["-v"; "--name=late"] 1 "name").
  - reflexivity.
  - vm_compute. discriminate.
  - repeat constructor.
  - right. exists "-v". split; reflexivity.
Defined.

(** ** Loops over the fields that fail *)

Section Failures.
Context `{External}.

(** X8: [setFields] stops at the first field whose [setValue] returns an
    error: the fields before it are as their [setValue] left them, the
    failing field and all fields after it are untouched, the set-tracking
    map is as the fields before left it, and the error is returned. *)
Theorem setFields_first_failure setValue (pre pre' post : Struct) (isSet isSet1 : IsSet)
    field v e :
  setFields setValue pre isSet = (pre', isSet1, Done) ->
  setValue field v isSet1 = Err e ->
  setFields setValue (pre ++ (field, v) :: post) isSet
  = ((pre' ++ (field, v) :: post)%list, isSet1, Failed e).
Proof.
  revert pre' isSet isSet1.
  induction pre as [|[first w] pre IH]; intros pre' isSet isSet1 Hpre Hfield.
  - injection Hpre as <- <-. cbn [app setFields]. by rewrite Hfield.
  - cbn [app setFields] in *.
    destruct (setValue first w isSet) as [[w' s']| |]; [|done..].
    destruct (setFields setValue pre s') as [[pre1 s1] st] eqn:Hrest.
    injection Hpre as <- <- ->.
    by rewrite (IH _ _ _ Hrest Hfield).
Qed.

End Failures.

Lemma setFields_first_failure_witness :
  setFields setDefault_field
    ([(Field1, Scalar (VString ""))]
     ++ (mkField "Port" TInt [("default", "http")], Scalar (VInt 0))
     :: [(Field2, Scalar (VInt 0))])
    (<["Field1" := false]> ∅)
  = (([(Field1, Scalar (VString "default1"))]
      ++ (mkField "Port" TInt [("default", "http")], Scalar (VInt 0))
      :: [(Field2, Scalar (VInt 0))])%list,
     <["Field1" := true]> (<["Field1" := false]> ∅),
     Failed (ParseField (NumError "ParseInt" "http" ErrSyntax))).
Proof.
  apply (setFields_first_failure setDefault_field
           [(Field1, Scalar (VString ""))] [(Field1, Scalar (VString "default1"))]
           [(Field2, Scalar (VInt 0))]).
  - vm_compute. reflexivity.
  - vm_compute. reflexivity.
Defined.

(** ** The package state *)

Section Latch.
Context `{External}.

(** X9: the first call of [Load] whose four passes complete sets
    [isLoaded], also when the validation that follows fails; from then on
    every call of [Load] that is not a call for help returns nil at once and
    leaves its argument alone, whatever the argument, the file and the
    process are. *)
Theorem Load_latch p g (cfg cfg' : Struct) (isSet : IsSet) file :
  isHelpRequested (Args p) = false ->
  isLoaded g = false ->
  onceDone g = false ->
  mageCommandGiven (Args p) = false ->
  loadPasses p cfg file = (cfg', isSet, Done) ->
  exists g',
    Load p g (PtrStruct cfg) file
    = Return (checkRequiredAndDepends (fst <$> cfg') isSet) (PtrStruct cfg') g'
    /\ isLoaded g' = true
    /\ forall p2 c2 file2,
         isHelpRequested (Args p2) = false ->
         Load p2 g' c2 file2 = Return None c2 g'.
Proof.
  intros Hhelp Hloaded Honce Hmage Hrun.
  exists {| isLoaded := true; onceDone := true |}. split; [|split; [done|]].
  - rewrite Load_passes by done. rewrite Hrun. unfold once_Do. by rewrite Honce.
  - intros p2 c2 file2 Hhelp2. unfold Load. by rewrite Hhelp2.
Qed.

(** X10: a call of [Load] that returns leaves the package state as it was,
    except for a call whose four passes complete while [isLoaded] is false
    and the [sync.Once] has not fired: that call sets both.  So a call that
    fails in a pass can be repeated, and once the [sync.Once] has fired no
    call ever sets [isLoaded] again. *)
Theorem Load_package_state p g c file err c' g' :
  Load p g c file = Return err c' g' ->
  g' = g
  \/ (isLoaded g = false /\ onceDone g = false
      /\ g' = {| isLoaded := true; onceDone := true |}
      /\ exists (cfg cfg' : Struct) (isSet : IsSet),
           c = PtrStruct cfg /\ c' = PtrStruct cfg'
           /\ loadPasses p cfg file = (cfg', isSet, Done)).
Proof.
  unfold Load. destruct (isHelpRequested (Args p)); [by destruct c|].
  destruct (isLoaded g) eqn:Hloaded; [intros [= _ _ <-]; by left|].
  destruct (mageCommandGiven (Args p)); [intros [= _ _ <-]; by left|].
  destruct c as [cfg| | |]; [|done|intros [= _ _ <-]; by left..].
  destruct (loadPasses p cfg file) as [[cfg1 isSet1] [|e|]] eqn:Hrun;
    [|intros [= _ _ <-]; by left|done].
  intros [= _ <- <-]. unfold once_Do.
  destruct (onceDone g) eqn:Honce; [by left|]. right. eauto 10.
Qed.

End Latch.

Lemma Load_latch_witness :
  exists g',
    Load dependsProcess fresh (PtrStruct (zeroStruct TestConfig_fields)) ""
    = Return (checkRequiredAndDepends (fst <$> dependsRun.1.1) dependsRun.1.2)
             (PtrStruct dependsRun.1.1) g'
    /\ isLoaded g' = true
    /\ forall p2 c2 file2,
         isHelpRequested (Args p2) = false ->
         Load p2 g' c2 file2 = Return None c2 g'.
Proof.
  apply (Load_latch dependsProcess fresh (zeroStruct TestConfig_fields)
           dependsRun.1.1 dependsRun.1.2 "").
  - reflexivity.
  - reflexivity.
  - reflexivity.
  - reflexivity.
  - vm_compute. reflexivity.
Defined.

Lemma Load_package_state_witness :
  {| isLoaded := false; onceDone := true |} = {| isLoaded := false; onceDone := true |}
  \/ (isLoaded {| isLoaded := false; onceDone := true |} = false
      /\ onceDone {| isLoaded := false; onceDone := true |} = false
      /\ {| isLoaded := false; onceDone := true |} = {| isLoaded := true; onceDone := true |}
      /\ exists (cfg cfg' : Struct) (isSet : IsSet),
           PtrStruct nameStruct = PtrStruct cfg
           /\ PtrStruct [(nameField, Scalar (VString "fromArg"))] = PtrStruct cfg'
           /\ loadPasses (wiredProcess ["--name=fromArg"]) cfg "mage.config"
              = (cfg', isSet, Done)).
Proof.
  apply (Load_package_state (wiredProcess ["--name=fromArg"])
           {| isLoaded := false; onceDone := true |} (PtrStruct nameStruct)
           "mage.config" None).
  vm_compute. reflexivity.
Defined.

(** ** Dropping the arguments after the target *)

Lemma contains_elem_of (s : list string) (str : string) :
  contains s str = true <-> str ∈ s.
Proof.
  induction s as [|v s IH]; cbn [contains].
  - split; [done|]. by intros ?%elem_of_nil.
  - rewrite elem_of_cons. destruct (decide (v = str)) as [->|Hne].
    + split; [by left|done].
    + rewrite IH. split; [by right|]. by intros [->|?].
Qed.

(** X11: [DropArgsAfterTarget] after a completed [Load]: what is left of
    [os.Args] is a prefix of it; every token left that begins with a dash is
    one of [-h], [-t], [-v]; and when something was dropped, the first token
    dropped begins with a dash and is none of the three. *)
Theorem DropArgsAfterTarget_prefix p g :
  isLoaded g = true ->
  (exists dropped, Args p = (Args (DropArgsAfterTarget p g) ++ dropped)%list
     /\ match dropped with
        | [] => True
        | arg :: _ => HasPrefix arg argPrefix = true /\ arg ∉ defaultMageOptions
        end)
  /\ Forall (λ arg, HasPrefix arg argPrefix = true -> arg ∈ defaultMageOptions)
            (Args (DropArgsAfterTarget p g)).
Proof.
  intros Hloaded. unfold DropArgsAfterTarget. rewrite Hloaded. cbn [negb Args].
  induction (Args p) as [|arg rest [(dropped & Hsplit & Hfirst) Hkept]].
  - split; [by exists []|constructor].
  - cbn [dropAfterTarget]. destruct (HasPrefix arg argPrefix) eqn:Hdash.
    + destruct (contains defaultMageOptions arg) eqn:Hopt.
      * split.
        -- exists dropped. split; [|done]. cbn [app]. by f_equal.
        -- constructor; [|done]. intros _. by apply contains_elem_of.
      * split; [|constructor]. exists (arg :: rest). split; [done|].
        split; [done|]. intros Hin%contains_elem_of. congruence.
    + split.
      * exists dropped. split; [|done]. cbn [app]. by f_equal.
      * constructor; [|done]. congruence.
Qed.

Lemma dropAfterTarget_idempotent (options args : list string) :
  dropAfterTarget options (dropAfterTarget options args) = dropAfterTarget options args.
Proof.
  induction args as [|arg rest IH]; [done|]. cbn [dropAfterTarget].
  destruct (HasPrefix arg argPrefix) eqn:Hdash.
  - destruct (contains options arg) eqn:Hopt; [|done].
    cbn [dropAfterTarget]. by rewrite Hdash, Hopt, IH.
  - cbn [dropAfterTarget]. by rewrite Hdash, IH.
Qed.

(** X12: [DropArgsAfterTarget] is idempotent: a second call changes
    nothing. *)
Theorem DropArgsAfterTarget_idempotent p g :
  DropArgsAfterTarget (DropArgsAfterTarget p g) g = DropArgsAfterTarget p g.
Proof.
  unfold DropArgsAfterTarget. destruct (isLoaded g); cbn [negb]; [|done].
  cbn [Args LookupEnv Open]. by rewrite dropAfterTarget_idempotent.
Qed.

Section DropAfterLoad.
Context `{External}.

(** X13: after a call of [Load] with [isLoaded] false, [DropArgsAfterTarget]
    changes [os.Args] only when the four passes of that call completed; a
    call stopped by a Mage command, by a wrong argument or by an error in a
    pass leaves the arguments to Mage as they were. *)
Theorem DropArgsAfterTarget_after_Load p g c file err c' g' :
  isLoaded g = false ->
  Load p g c file = Return err c' g' ->
  DropArgsAfterTarget p g' <> p ->
  exists (cfg cfg' : Struct) (isSet : IsSet),
    c = PtrStruct cfg /\ c' = PtrStruct cfg'
    /\ loadPasses p cfg file = (cfg', isSet, Done).
Proof.
  intros Hloaded Hload Hdrop.
  assert (DropArgsAfterTarget p g = p) as Hsame
    by (unfold DropArgsAfterTarget; by rewrite Hloaded).
  unfold Load in Hload. rewrite Hloaded in Hload.
  destruct (isHelpRequested (Args p)); [by destruct c|].
  destruct (mageCommandGiven (Args p)); [injection Hload as _ _ <-; done|].
  destruct c as [cfg| | |]; [|done|injection Hload as _ _ <-; done..].
  destruct (loadPasses p cfg file) as [[cfg1 isSet1] [|e|]] eqn:Hrun;
    [|injection Hload as _ _ <-; done|done].
  injection Hload as _ <- _. by exists cfg, cfg1, isSet1.
Qed.

End DropAfterLoad.

(** X14: the earlier [DropArgsAfterTarget] keeps [-l] as well; on arguments
    without [-l] it leaves what the later one leaves after a completed
    [Load]. *)
Theorem Legacy_DropArgsAfterTarget_agrees p g :
  isLoaded g = true ->
  "-l" ∉ Args p ->
  Legacy.DropArgsAfterTarget p = DropArgsAfterTarget p g.
Proof.
  intros Hloaded Hl. unfold Legacy.DropArgsAfterTarget, DropArgsAfterTarget.
  rewrite Hloaded. cbn [negb]. f_equal.
  induction (Args p) as [|arg rest IH]; [done|].
  apply not_elem_of_cons in Hl as [Harg Hrest].
  cbn [dropAfterTarget]. rewrite IH by done.
  destruct (HasPrefix arg argPrefix); [|done].
  cbn [contains defaultMageOptions]. by rewrite (decide_False (P := "-l" = arg)).
Qed.

Lemma DropArgsAfterTarget_prefix_witness :
  (exists dropped,
     Args (testProcess ["-v"; "showconfig"; "--api-key"; "abc123"] [] noFiles)
     = (Args (DropArgsAfterTarget
                (testProcess ["-v"; "showconfig"; "--api-key"; "abc123"] [] noFiles) loaded)
        ++ dropped)%list
     /\ match dropped with
        | [] => True
        | arg :: _ => HasPrefix arg argPrefix = true /\ arg ∉ defaultMageOptions
        end)
  /\ Forall (λ arg, HasPrefix arg argPrefix = true -> arg ∈ defaultMageOptions)
            (Args (DropArgsAfterTarget
                     (testProcess ["-v"; "showconfig"; "--api-key"; "abc123"] [] noFiles)
                     loaded)).
Proof.
  apply (DropArgsAfterTarget_prefix
           (testProcess ["-v"; "showconfig"; "--api-key"; "abc123"] [] noFiles) loaded).
  reflexivity.
Defined.

(** The command line of the package's description: the option [-v] of Mage
    and the target stay, the argument of the configuration and its value
    go; with [-debug] before the target nothing but the program name
    stays. *)
Example DropArgsAfterTarget_command_lines :
  Args (DropArgsAfterTarget
          (testProcess ["-v"; "showconfig"; "--api-key"; "abc123"] [] noFiles) loaded)
  = ["cmd"; "-v"; "showconfig"]
  /\ Args (DropArgsAfterTarget
             (testProcess ["-debug"; "-v"; "showconfig"; "--api-key"; "abc123"] [] noFiles)
             loaded)
     = ["cmd"].
Proof. split; reflexivity. Qed.

Lemma DropArgsAfterTarget_after_Load_witness :
  exists (cfg cfg' : Struct) (isSet : IsSet),
    PtrStruct nameStruct = PtrStruct cfg
    /\ PtrStruct [(nameField, Scalar (VString "fromArg"))] = PtrStruct cfg'
    /\ loadPasses (wiredProcess ["target"; "--name=fromArg"]) cfg "mage.config"
       = (cfg', isSet, Done).
Proof.
  apply (DropArgsAfterTarget_after_Load (wiredProcess ["target"; "--name=fromArg"])
           fresh (PtrStruct nameStruct) "mage.config" None
           (PtrStruct [(nameField, Scalar (VString "fromArg"))]) loaded).
  - reflexivity.
  - vm_compute. reflexivity.
  - intros Hsame. apply (f_equal Args) in Hsame. vm_compute in Hsame. discriminate.
Defined.

Lemma Legacy_DropArgsAfterTarget_agrees_witness :
  Legacy.DropArgsAfterTarget (testProcess ["-v"; "showconfig"; "--api-key"] [] noFiles)
  = DropArgsAfterTarget (testProcess ["-v"; "showconfig"; "--api-key"] [] noFiles) loaded.
Proof.
  apply (Legacy_DropArgsAfterTarget_agrees
           (testProcess ["-v"; "showconfig"; "--api-key"] [] noFiles) loaded).
  - reflexivity.
  - compute_done.
Defined.

(** ** Conversions *)

Lemma genSplit_nonempty (sep s : string) (skip : nat) (budget : option nat) (cur : string) :
  genSplit sep s skip budget cur <> [].
Proof.
  revert skip budget cur.
  induction s as [|c s IH]; intros skip budget cur; cbn [genSplit]; [done|].
  destruct skip as [|k]; [|apply IH].
  destruct budget as [[|b]|]; [done| |]; destruct (HasPrefix _ sep); done || apply IH.
Qed.

Lemma Split_nonempty (s sep : string) : Split s sep <> [].
Proof. apply genSplit_nonempty. Qed.

Section Conversions.
Context `{External}.






(** The value [parseStringToType] returns has the type asked for, except
    for the narrow kinds. *)
Lemma parseStringToType_type (s : string) (t : gotype) (v : scalar) :
  parseStringToType s t = Ok v ->
  if narrow t then typeOf v <> t else typeOf v = t.
Proof.
  destruct t; cbn [parseStringToType narrow]; try done;
    match goal with
    | |- _ <$> ?r = _ -> _ => destruct r; cbn; intros [= <-]; done
    | |- Ok _ = _ -> _ => intros [= <-]; done
    end.
Qed.

Lemma assignable_Ok (t : gotype) (v w : scalar) :
  assignable t v = Ok w <-> w = v /\ typeOf v = t.
Proof.
  unfold assignable. destruct (decide (typeOf v = t)); split.
  - by intros [= ->].
  - by intros [-> _].
  - done.
  - by intros [_ ?].
Qed.

Lemma sliceLoop_Ok elem (toks : list string) (vs : list scalar) :
  sliceLoop elem toks = Ok vs <->
  Forall2 (λ tok v, parseStringToType (TrimSpace tok) elem = Ok v /\ typeOf v = elem)
          toks vs.
Proof.
  split.
  - revert vs. induction toks as [|tok toks IH]; intros vs; cbn [sliceLoop].
    + intros [= <-]. constructor.
    + destruct (parseStringToType (TrimSpace tok) elem) as [v| |] eqn:Hparse; [|done..].
      cbn. unfold assignable.
      destruct (decide (typeOf v = elem)) as [Htype|Htype]; [|done]. cbn.
      destruct (sliceLoop elem toks) as [ws| |]; [|done..]. cbn.
      intros [= <-]. constructor; [done|]. by apply IH.
  - induction 1 as [|tok v toks vs [Hparse Htype] _ IH]; [done|].
    cbn [sliceLoop]. rewrite Hparse. cbn. unfold assignable.
    rewrite decide_True by done. cbn. by rewrite IH.
Qed.

(** X15: a slice field is set exactly when every piece between the commas
    of the text, trimmed, converts to the element type; the slice then has
    one element for every piece, in the order of the text. *)
Theorem slice_conversion field elem (strVal : string) (v : value) :
  Typ field = TSlice elem ->
  setFieldByKind field strVal = Ok v <->
  exists vs, v = SliceOf vs
             /\ Forall2 (λ tok x, parseStringToType (TrimSpace tok) elem = Ok x
                                  /\ typeOf x = elem)
                        (Split strVal sliceSeparator) vs.
Proof.
  intros Htype. unfold setFieldByKind. rewrite Htype.
  destruct (sliceLoop elem (Split strVal sliceSeparator)) as [ws| |] eqn:Hloop; cbn.
  - apply sliceLoop_Ok in Hloop. split.
    + intros [= <-]. eauto.
    + intros (vs & -> & Hall). apply sliceLoop_Ok in Hloop, Hall. congruence.
  - split; [done|]. intros (vs & _ & Hall%sliceLoop_Ok). congruence.
  - split; [done|]. intros (vs & _ & Hall%sliceLoop_Ok). congruence.
Qed.

Lemma mapLoop_non_empty elem (toks : list string) (m m' : gmap string scalar) :
  mapLoop elem toks m = Ok m' -> m <> ∅ \/ toks <> [] -> m' <> ∅.
Proof.
  revert m. induction toks as [|tok toks IH]; intros m; cbn [mapLoop].
  - intros [= <-] [?|?]; done.
  - destruct (SplitN tok kvSeparator 2) as [|k [|vtext [|? ?]]]; try done.
    destruct (parseStringToType (TrimSpace vtext) elem) as [v| |]; [|done..]. cbn.
    destruct (assignable elem v) as [w| |]; [|done..]. cbn.
    intros Hrest _. apply (IH _ Hrest). left. apply insert_non_empty.
Qed.

(** X16: no text sets a slice field to the empty slice or a map field to
    the empty map: the empty text is one empty piece. *)
Theorem aggregate_never_empty field (strVal : string) :
  setFieldByKind field strVal <> Ok (SliceOf [])
  /\ setFieldByKind field strVal <> Ok (MapOf ∅).
Proof.
  unfold setFieldByKind. destruct (Typ field) eqn:Htype;
    try (split; destruct (parseStringToType strVal _) as [v| |];
         try done; cbn; by destruct (assignable _ v)).
  - split.
    + destruct (sliceLoop _ _) as [vs| |] eqn:Hloop; [|done..]. cbn. intros [= ->].
      apply sliceLoop_Ok in Hloop. apply Forall2_nil_inv_r in Hloop.
      by apply Split_nonempty in Hloop.
    + by destruct (sliceLoop _ _).
  - split.
    + by destruct (mapLoop _ _ _).
    + destruct (mapLoop _ _ _) as [m| |] eqn:Hloop; [|done..]. cbn. intros [= ->].
      eapply mapLoop_non_empty; [done| |done]. right. apply Split_nonempty.
Qed.

End Conversions.

(** The empty text: a list of one empty string, an error for a list of
    integers and for a map. *)
Example empty_text_aggregates :
  setFieldByKind (mkField "L" (TSlice TString) []) "" = Ok (SliceOf [VString ""])
  /\ setFieldByKind (mkField "L" (TSlice TInt) []) ""
     = Err (NumError "ParseInt" "" ErrSyntax)
  /\ setFieldByKind intMapField "" = Err (InvalidMapValue "").
Proof. repeat split; vm_compute; reflexivity. Qed.

Lemma slice_conversion_witness :
  setFieldByKind (mkField "Ports" (TSlice TInt) []) "80, 443" = Ok (SliceOf [VInt 80; VInt 443])
  <-> exists vs, SliceOf [VInt 80; VInt 443] = SliceOf vs
                 /\ Forall2 (λ tok x, parseStringToType (TrimSpace tok) TInt = Ok x
                                      /\ typeOf x = TInt)
                            (Split "80, 443" sliceSeparator) vs.
Proof.
  apply (slice_conversion (mkField "Ports" (TSlice TInt) []) TInt "80, 443").
  reflexivity.
Defined.

(** *** Writing a list and reading it back *)

Lemma genSplit_piece (x s cur : string) :
  Index x "," = -1 ->
  genSplit "," (x +:+ s) 0 None cur = genSplit "," s 0 None (cur +:+ x).
Proof.
  revert cur. induction x as [|c x IH]; intros cur Hx.
  - by rewrite append_empty_r.
  - rewrite append_cons. cbn [genSplit]. cbn [Index HasPrefix] in Hx |- *.
    rewrite andb_true_r in Hx |- *.
    destruct (byte_eqb c ","); [done|]. cbv zeta in Hx.
    pose proof (Index_lower_bound x ",") as Hlow.
    destruct (Z.ltb_spec (Index x ",") 0); [|lia].
    rewrite IH by lia. by rewrite append_assoc.
Qed.

Lemma genSplit_comma (s cur : string) :
  genSplit "," (String "," s) 0 None cur = cur :: genSplit "," s 0 None "".
Proof. reflexivity. Qed.

Lemma Split_joinWith (xs : list string) :
  xs <> [] ->
  Forall (λ x, Index x "," = -1) xs ->
  Split (joinWith "," xs) "," = xs.
Proof.
  intros Hne Hxs. unfold Split.
  induction Hxs as [|x xs Hx Hxs IH]; [done|].
  destruct xs as [|y xs].
  - cbn [joinWith]. rewrite <- (append_empty_r x) at 1.
    by rewrite genSplit_piece.
  - change (joinWith "," (x :: y :: xs)) with (x +:+ "," +:+ joinWith "," (y :: xs)).
    rewrite genSplit_piece by done.
    change ("," +:+ joinWith "," (y :: xs)) with (String "," (joinWith "," (y :: xs))).
    change ("" +:+ x) with x.
    rewrite genSplit_comma. by rewrite IH.
Qed.

Section RoundTrip.
Context `{External}.

(** X17: a list of texts written with commas between them is read back by a
    field of type [[]string] as the same list, provided the list is not
    empty and no text has a comma in it or white space at either end. *)
Theorem string_slice_round_trip field (xs : list string) :
  Typ field = TSlice TString ->
  xs <> [] ->
  Forall (λ x, Index x "," = -1 /\ TrimSpace x = x) xs ->
  setFieldByKind field (joinWith sliceSeparator xs) = Ok (SliceOf (VString <$> xs)).
Proof.
  intros Htype Hne Hxs. unfold setFieldByKind. rewrite Htype.
  assert (sliceLoop TString (Split (joinWith sliceSeparator xs) sliceSeparator)
          = Ok (VString <$> xs)) as ->; [|done].
  apply sliceLoop_Ok.
  unfold sliceSeparator. rewrite Split_joinWith; [|done|].
  - apply Forall2_fmap_r, Forall_Forall2_diag.
    eapply Forall_impl; [exact Hxs|]. intros x [_ Htrim]. cbn.
    by rewrite Htrim.
  - eapply Forall_impl; [exact Hxs|]. by intros x [? _].
Qed.

End RoundTrip.

Lemma string_slice_round_trip_witness :
  setFieldByKind (mkField "StringSlice" (TSlice TString) [])
                 (joinWith sliceSeparator ["one"; "two words"; ""; "three"])
  = Ok (SliceOf (VString <$> ["one"; "two words"; ""; "three"])).
Proof.
  apply (string_slice_round_trip (mkField "StringSlice" (TSlice TString) [])
           ["one"; "two words"; ""; "three"]).
  - reflexivity.
  - discriminate.
  - repeat constructor.
Defined.

(** *** Kinds that are never stored, and where errors and panics come from *)

Section Kinds.
Context `{External}.

Lemma assignable_narrow (s : string) (t : gotype) (v : scalar) :
  narrow t = true -> parseStringToType s t = Ok v -> assignable t v = Panic.
Proof.
  intros Hnarrow Hparse%parseStringToType_type. rewrite Hnarrow in Hparse.
  unfold assignable. by rewrite decide_False.
Qed.

Lemma sliceLoop_narrow elem (toks : list string) (vs : list scalar) :
  narrow elem = true -> toks <> [] -> sliceLoop elem toks <> Ok vs.
Proof.
  intros Hnarrow Hne. destruct toks as [|tok toks]; [done|]. cbn [sliceLoop].
  destruct (parseStringToType (TrimSpace tok) elem) as [v| |] eqn:Hparse; [|done..].
  cbn. by rewrite (assignable_narrow _ _ _ Hnarrow Hparse).
Qed.

Lemma mapLoop_narrow elem (toks : list string) (m m' : gmap string scalar) :
  narrow elem = true -> toks <> [] -> mapLoop elem toks m <> Ok m'.
Proof.
  intros Hnarrow Hne. destruct toks as [|tok toks]; [done|]. cbn [mapLoop].
  destruct (SplitN tok kvSeparator 2) as [|k [|vtext [|? ?]]]; try done.
  destruct (parseStringToType (TrimSpace vtext) elem) as [v| |] eqn:Hparse; [|done..].
  cbn. by rewrite (assignable_narrow _ _ _ Hnarrow Hparse).
Qed.

(** X18: a field of kind [int32], [int64], [uint32], [uint64] or [float32],
    or a slice or map of such elements, is never set: no text is stored in
    it, and for a field of such a kind itself every text that parses makes
    the call panic, since the value parsed is an [int], a [uint] or a
    [float64]. *)
Theorem narrow_kinds_never_stored field (strVal : string) :
  storesNarrow (Typ field) = true ->
  (forall v, setFieldByKind field strVal <> Ok v)
  /\ (narrow (Typ field) = true ->
      forall x, parseStringToType strVal (Typ field) = Ok x ->
                setFieldByKind field strVal = Panic).
Proof.
  intros Hstores. unfold setFieldByKind. split.
  - intros v. destruct (Typ field) eqn:Htype; cbn [storesNarrow] in Hstores; try done.
    all: try (destruct (parseStringToType strVal _) as [x| |] eqn:Hparse; [|done..];
              by rewrite (assignable_narrow _ _ _ Hstores Hparse)).
    + destruct (sliceLoop _ _) as [vs| |] eqn:Hloop; [|done..].
      by apply sliceLoop_narrow in Hloop; [|done|apply Split_nonempty].
    + destruct (mapLoop _ _ _) as [m| |] eqn:Hloop; [|done..].
      by apply mapLoop_narrow in Hloop; [|done|apply Split_nonempty].
  - intros Hnarrow x Hparse.
    destruct (Typ field) eqn:Htype; try done;
      rewrite Hparse; by rewrite (assignable_narrow _ _ _ Hnarrow Hparse).
Qed.

Lemma sliceLoop_Err elem (toks : list string) e :
  sliceLoop elem toks = Err e ->
  exists tok, tok ∈ toks /\ parseStringToType (TrimSpace tok) elem = Err e.
Proof.
  induction toks as [|tok toks IH]; cbn [sliceLoop]; [done|].
  destruct (parseStringToType (TrimSpace tok) elem) as [v| |] eqn:Hparse; cbn.
  - unfold assignable. destruct (decide (typeOf v = elem)); [|done]. cbn.
    destruct (sliceLoop elem toks) as [vs|e'|]; [done| |done]. cbn.
    intros [= <-]. destruct IH as (tok' & Hin & Htok); [done|].
    exists tok'. split; [|done]. apply elem_of_cons. by right.
  - intros [= <-]. exists tok. split; [|done]. apply elem_of_cons. by left.
  - done.
Qed.

Lemma mapLoop_Err elem (toks : list string) (m : gmap string scalar) e :
  mapLoop elem toks m = Err e ->
  exists tok, tok ∈ toks
    /\ ((e = InvalidMapValue tok /\ List.length (SplitN tok kvSeparator 2) <> 2%nat)
        \/ exists k vtext, SplitN tok kvSeparator 2 = [k; vtext]
                           /\ parseStringToType (TrimSpace vtext) elem = Err e).
Proof.
  revert m. induction toks as [|tok toks IH]; intros m; cbn [mapLoop]; [done|].
  destruct (SplitN tok kvSeparator 2) as [|k [|vtext [|? ?]]] eqn:Hsplit;
    try (intros [= <-]; exists tok; split; [apply elem_of_cons; by left|];
         left; by rewrite Hsplit).
  destruct (parseStringToType (TrimSpace vtext) elem) as [v| |] eqn:Hparse; cbn.
  - unfold assignable. destruct (decide (typeOf v = elem)); [|done]. cbn.
    intros (tok' & Hin & Htok)%IH. exists tok'. split; [|done].
    apply elem_of_cons. by right.
  - intros [= <-]. exists tok. split; [apply elem_of_cons; by left|].
    right. rewrite Hsplit. eauto.
  - done.
Qed.

(** X19: where an error of [setFieldByKind] comes from.  For a slice it is
    the error of converting one of the pieces, as it is; for a map it is the
    error that names a piece without a colon, or the error of converting the
    value text of a piece, as it is; for any other field it is the error of
    converting the whole text, wrapped as [parse field]. *)
Theorem conversion_error_origin field (strVal : string) e :
  setFieldByKind field strVal = Err e ->
  match Typ field with
  | TSlice elem =>
      exists tok, tok ∈ Split strVal sliceSeparator
                  /\ parseStringToType (TrimSpace tok) elem = Err e
  | TMap elem =>
      exists tok, tok ∈ Split strVal sliceSeparator
        /\ ((e = InvalidMapValue tok /\ List.length (SplitN tok kvSeparator 2) <> 2%nat)
            \/ exists k vtext, SplitN tok kvSeparator 2 = [k; vtext]
                               /\ parseStringToType (TrimSpace vtext) elem = Err e)
  | t => exists e', e = ParseField e' /\ parseStringToType strVal t = Err e'
  end.
Proof.
  unfold setFieldByKind.
  destruct (Typ field) eqn:Htype;
    try (destruct (parseStringToType strVal _) as [v| |]; cbn;
         [unfold assignable; by destruct (decide _)|intros [= <-]; eauto|done]).
  - destruct (sliceLoop _ _) as [vs| |] eqn:Hloop; [done| |done]. cbn.
    intros [= <-]. by apply sliceLoop_Err.
  - destruct (mapLoop _ _ _) as [m| |] eqn:Hloop; [done| |done]. cbn.
    intros [= <-]. by eapply mapLoop_Err.
Qed.

End Kinds.

Lemma narrow_kinds_never_stored_witness :
  (forall v, setFieldByKind int64Field "12" <> Ok v)
  /\ (narrow (Typ int64Field) = true ->
      forall x, parseStringToType "12" (Typ int64Field) = Ok x ->
                setFieldByKind int64Field "12" = Panic).
Proof.
  apply (narrow_kinds_never_stored int64Field "12").
  reflexivity.
Defined.

(** A record with a field of kind [int64]: an argument for it makes [Load]
    panic, a text that does not parse makes it fail, and without any source
    the call succeeds. *)
Example int64_field_outcomes :
  Load (testProcess ["--size=12"] [] noFiles) fresh
       (PtrStruct [(int64Field, Scalar (VInt 0))]) "" = Panics
  /\ Load (testProcess ["--size=big"] [] noFiles) fresh
          (PtrStruct [(int64Field, Scalar (VInt 0))]) ""
     = Return (Some (ParseField (NumError "ParseInt" "big" ErrSyntax)))
              (PtrStruct [(int64Field, Scalar (VInt 0))]) fresh
  /\ exists g, Load (testProcess [] [] noFiles) fresh
                    (PtrStruct [(int64Field, Scalar (VInt 0))]) ""
               = Return None (PtrStruct [(int64Field, Scalar (VInt 0))]) g.
Proof. split; [|split; [|eexists]]; vm_compute; reflexivity. Qed.

Lemma conversion_error_origin_witness :
  exists tok, tok ∈ Split "80,http" sliceSeparator
              /\ parseStringToType (TrimSpace tok) TInt
                 = Err (NumError "ParseInt" "http" ErrSyntax).
Proof.
  apply (conversion_error_origin (mkField "Ports" (TSlice TInt) []) "80,http").
  vm_compute. reflexivity.
Defined.

(** ** Where a panic of [Load] comes from *)


Section Panics.
Context `{External}.







Lemma elem_of_fields (cfg : Struct) field v :
  (field, v) ∈ cfg -> field ∈ fst <$> cfg.
Proof. intros Hin. apply list_elem_of_fmap. by exists (field, v). Qed.








End Panics.


(** ** When validation passes *)

Section ValidationMore.
Context `{External}.

Lemma notSet_false (isSet : IsSet) (name : string) :
  notSet isSet name = false <-> isSet !! name = Some true.
Proof. unfold notSet. destruct (isSet !! name) as [[|]|]; split; done. Qed.

Lemma checkDepends_None depends (isSet : IsSet) :
  checkDepends depends isSet = None <-> forall d, d ∈ depends -> isSet !! d = Some true.
Proof.
  induction depends as [|depend rest IH]; cbn [checkDepends].
  - split; [|done]. by intros _ d ?%elem_of_nil.
  - destruct (notSet isSet depend) eqn:Hset.
    + split; [done|]. intros Hall.
      assert (isSet !! depend = Some true) as Hd%notSet_false
        by (apply Hall, elem_of_cons; by left).
      congruence.
    + rewrite IH. apply notSet_false in Hset. split.
      * intros Hall d [->|Hin]%elem_of_cons; eauto.
      * intros Hall d Hin. apply Hall, elem_of_cons. by right.
Qed.

(** X21: the validation pass returns nil exactly when every field whose
    required tag is [true] has its flag set and, for every field with a
    dependency list, every name between the commas of the list has its flag
    set, whether the field that declares the dependency is set itself or
    not. *)
Theorem validation_passes_iff (fields : list StructField) (isSet : IsSet) :
  checkRequiredAndDepends fields isSet = None <->
  forall field, field ∈ fields ->
    (Tag_Get field tagRequired = "true" -> isSet !! Name field = Some true)
    /\ (Tag_Get field tagDepends <> "" ->
        forall d, d ∈ Split (Tag_Get field tagDepends) "," -> isSet !! d = Some true).
Proof.
  induction fields as [|field rest IH]; cbn [checkRequiredAndDepends].
  - split; [|done]. by intros _ f ?%elem_of_nil.
  - destruct (bool_decide (Tag_Get field tagRequired = "true")) eqn:Hreq;
      [apply bool_decide_eq_true in Hreq|apply bool_decide_eq_false in Hreq];
      cbn [andb].
    + destruct (notSet isSet (Name field)) eqn:Hset.
      * split; [done|]. intros Hall.
        destruct (Hall field) as [Hflag _]; [apply elem_of_cons; by left|].
        apply Hflag, notSet_false in Hreq. congruence.
      * apply notSet_false in Hset.
        destruct (decide (Tag_Get field tagDepends = "")) as [Hdep|Hdep].
        -- rewrite IH. split.
           ++ intros Hall f [->|Hin]%elem_of_cons; [by split|eauto].
           ++ intros Hall f Hin. apply Hall, elem_of_cons. by right.
        -- destruct (checkDepends _ isSet) as [e|] eqn:Hcheck.
           ++ split; [done|]. intros Hall.
              destruct (Hall field) as [_ Hdeps]; [apply elem_of_cons; by left|].
              apply (proj2 (checkDepends_None _ _)) in Hdeps; [|done]. congruence.
           ++ rewrite IH. pose proof (proj1 (checkDepends_None _ _) Hcheck) as Hdeps.
              split.
              ** intros Hall f [->|Hin]%elem_of_cons; [by split|eauto].
              ** intros Hall f Hin. apply Hall, elem_of_cons. by right.
    + destruct (decide (Tag_Get field tagDepends = "")) as [Hdep|Hdep].
      * rewrite IH. split.
        -- intros Hall f [->|Hin]%elem_of_cons; [by split|eauto].
        -- intros Hall f Hin. apply Hall, elem_of_cons. by right.
      * destruct (checkDepends _ isSet) as [e|] eqn:Hcheck.
        -- split; [done|]. intros Hall.
           destruct (Hall field) as [_ Hdeps]; [apply elem_of_cons; by left|].
           apply (proj2 (checkDepends_None _ _)) in Hdeps; [|done]. congruence.
        -- rewrite IH. pose proof (proj1 (checkDepends_None _ _) Hcheck) as Hdeps.
           split.
           ++ intros Hall f [->|Hin]%elem_of_cons; [by split|eauto].
           ++ intros Hall f Hin. apply Hall, elem_of_cons. by right.
Qed.

(** X22: on a record without dependency lists the validation of the two
    loaders is the same. *)
Theorem validation_without_depends (fields : list StructField) (isSet : IsSet) :
  Forall (λ field, Tag_Get field tagDepends = "") fields ->
  checkRequiredAndDepends fields isSet = Legacy.checkRequired fields isSet.
Proof.
  induction 1 as [|field rest Hdep _ IH]; [done|].
  cbn [checkRequiredAndDepends Legacy.checkRequired].
  destruct (_ && _); [done|]. by rewrite decide_True.
Qed.

Lemma checkDepends_Some depends (isSet : IsSet) e :
  checkDepends depends isSet = Some e ->
  exists d, e = ErrDependsNotSet d /\ notSet isSet d = true.
Proof.
  induction depends as [|depend rest IH]; cbn [checkDepends]; [done|].
  destruct (notSet isSet depend) eqn:Hset; [|done]. intros [= <-]. eauto.
Qed.

(** The name in an error of the validation pass has no flag set. *)
Lemma checkRequiredAndDepends_Some (fields : list StructField) (isSet : IsSet) e :
  checkRequiredAndDepends fields isSet = Some e ->
  exists name, (e = ErrRequiredNotSet name \/ e = ErrDependsNotSet name)
               /\ notSet isSet name = true.
Proof.
  induction fields as [|field rest IH]; cbn [checkRequiredAndDepends]; [done|].
  destruct (bool_decide _ && notSet isSet (Name field)) eqn:Hreq.
  - apply andb_true_iff in Hreq as [_ Hset]. intros [= <-]. eauto.
  - destruct (decide (Tag_Get field tagDepends = "")); [done|].
    destruct (checkDepends _ isSet) as [e'|] eqn:Hcheck; [|done].
    intros [= <-]. apply checkDepends_Some in Hcheck as (d & -> & Hset). eauto.
Qed.

(** X23: after the four passes a field with a non-empty default literal is
    never the one the validation pass complains about, neither as a required
    field nor as a dependency of another field. *)
Theorem default_satisfies_validation p file (cfg cfg' : Struct) (isSet : IsSet) field v :
  loadPasses p cfg file = (cfg', isSet, Done) ->
  (field, v) ∈ cfg ->
  Tag_Get field tagDefault <> "" ->
  checkRequiredAndDepends (fst <$> cfg') isSet <> Some (ErrRequiredNotSet (Name field))
  /\ checkRequiredAndDepends (fst <$> cfg') isSet <> Some (ErrDependsNotSet (Name field)).
Proof.
  intros Hrun Hin Hdefault.
  assert (notSet isSet (Name field) = false) as Hset.
  { apply notSet_false. rewrite (loadPasses_flags _ _ _ _ _ (Name field) Hrun).
    rewrite (supplied_elem defaultCandidate); [by rewrite !orb_true_r| |].
    - by eapply elem_of_fields.
    - unfold defaultCandidate. rewrite decide_False by done. eauto. }
  split; intros (name & [Heq|Heq] & Hname)%checkRequiredAndDepends_Some;
    simplify_eq; congruence.
Qed.

Lemma Legacy_checkRequired_Some (fields : list StructField) (isSet : IsSet) field :
  field ∈ fields ->
  Tag_Get field tagRequired = "true" ->
  notSet isSet (Name field) = true ->
  exists name, Legacy.checkRequired fields isSet = Some (ErrRequiredNotSet name).
Proof.
  intros Hin Hreq Hset. induction fields as [|first rest IH]; [by apply elem_of_nil in Hin|].
  cbn [Legacy.checkRequired].
  destruct (bool_decide _ && notSet isSet (Name first)) eqn:Hfirst; [eauto|].
  apply elem_of_cons in Hin as [->|Hin]; [|by apply IH].
  by rewrite bool_decide_eq_true_2, Hset in Hfirst.
Qed.

(** X24: in the earlier loader a required field that gets nothing from the
    file, the environment or the arguments fails the call with a
    required-not-set error, even when it has a default literal and the
    default was assigned. *)
Theorem Legacy_required_needs_source p g file (cfg cfg' : Struct) (isSet : IsSet) field v :
  NoDup (Name <$> (fst <$> cfg)) ->
  isHelpRequested (Args p) = false ->
  Legacy.loadPasses p cfg file = (cfg', isSet, Done) ->
  (field, v) ∈ cfg ->
  Tag_Get field tagRequired = "true" ->
  fileCandidate p file field = None ->
  envCandidate p field = None ->
  argCandidate p field = None ->
  exists name,
    Legacy.Load p g (PtrStruct cfg) file
    = Return (Some (ErrRequiredNotSet name)) (PtrStruct cfg') g.
Proof.
  intros Hnodup Hhelp Hrun Hin Hreq Hfile Henv Harg.
  pose proof (elem_of_fields _ _ _ Hin) as Hfield.
  unfold Legacy.Load. rewrite Hhelp, Hrun.
  apply Legacy_loadPasses_Done in Hrun
    as (c1 & c2 & s2 & c3 & s3 & H1 & H2 & H3 & H4).
  apply fieldStep_fields in H1.
  apply setFields_Done in H2 as [S2 F2]. apply setFields_Done in H3 as [S3 F3].
  apply setFields_Done in H4 as [S4 F4]. apply fieldStep_fields in S2, S3, S4.
  assert (notSet isSet (Name field) = true) as Hset.
  { unfold notSet. rewrite F4, F3, F2, initializeIsSet_lookup, S3, S2, H1.
    rewrite !supplied_NoDup by done. rewrite Harg, Henv, Hfile.
    rewrite (bool_decide_eq_false_2 (is_Some None)) by (by intros [? ?]).
    by rewrite bool_decide_eq_true_2 by (by apply list_elem_of_fmap_2). }
  destruct (Legacy_checkRequired_Some (fst <$> cfg') isSet field) as [name ->]; [|done..|eauto].
  by rewrite S4, S3, S2, H1.
Qed.

End ValidationMore.

Lemma validation_without_depends_witness :
  checkRequiredAndDepends [Field5; Field6] (<["Field5" := true]> ∅)
  = Legacy.checkRequired [Field5; Field6] (<["Field5" := true]> ∅).
Proof.
  apply (validation_without_depends [Field5; Field6] (<["Field5" := true]> ∅)).
  repeat constructor.
Defined.

Lemma default_satisfies_validation_witness :
  checkRequiredAndDepends
    (fst <$> (loadPasses quietProcess requiredDefaultStruct "").1.1)
    (loadPasses quietProcess requiredDefaultStruct "").1.2
  <> Some (ErrRequiredNotSet (Name requiredDefaultField))
  /\ checkRequiredAndDepends
       (fst <$> (loadPasses quietProcess requiredDefaultStruct "").1.1)
       (loadPasses quietProcess requiredDefaultStruct "").1.2
     <> Some (ErrDependsNotSet (Name requiredDefaultField)).
Proof.
  apply (default_satisfies_validation quietProcess "" requiredDefaultStruct
           (loadPasses quietProcess requiredDefaultStruct "").1.1
           (loadPasses quietProcess requiredDefaultStruct "").1.2
           requiredDefaultField (Scalar (VInt 0))).
  - vm_compute. reflexivity.
  - apply list_elem_of_lookup. exists 0%nat. reflexivity.
  - vm_compute. discriminate.
Defined.

Lemma Legacy_required_needs_source_witness :
  exists name,
    Legacy.Load quietProcess fresh (PtrStruct requiredDefaultStruct) ""
    = Return (Some (ErrRequiredNotSet name))
             (PtrStruct (Legacy.loadPasses quietProcess requiredDefaultStruct "").1.1) fresh.
Proof.
  apply (Legacy_required_needs_source quietProcess fresh "" requiredDefaultStruct
           (Legacy.loadPasses quietProcess requiredDefaultStruct "").1.1
           (Legacy.loadPasses quietProcess requiredDefaultStruct "").1.2
           requiredDefaultField (Scalar (VInt 0))).
  - compute_done.
  - reflexivity.
  - vm_compute. reflexivity.
  - apply list_elem_of_lookup. exists 0%nat. reflexivity.
  - reflexivity.
  - reflexivity.
  - reflexivity.
  - reflexivity.
Defined.

(** The same record in the two loaders: the later one succeeds with the
    default, the earlier one assigns the default and fails. *)
Example required_with_default_two_loaders :
  Load quietProcess fresh (PtrStruct requiredDefaultStruct) ""
  = Return None (PtrStruct [(requiredDefaultField, Scalar (VInt 3))]) loaded
  /\ Legacy.Load quietProcess fresh (PtrStruct requiredDefaultStruct) ""
     = Return (Some (ErrRequiredNotSet "Level"))
              (PtrStruct [(requiredDefaultField, Scalar (VInt 3))]) fresh.
Proof. split; vm_compute; reflexivity. Qed.

(** ** Quoted values and lines without a separator *)

Lemma Index_after_byte (b : ascii) (name rest : string) :
  Index name (String b "") = -1 ->
  Index (name +:+ String b rest) (String b "") = len name.
Proof.
  induction name as [|c name IH].
  - intros _. change (Index (String b rest) (String b "") = 0).
    cbn [Index HasPrefix]. unfold byte_eqb. by rewrite Ascii.eqb_refl.
  - rewrite append_cons. cbn [Index HasPrefix]. rewrite !andb_true_r.
    destruct (byte_eqb c b); [done|]. cbv zeta.
    pose proof (Index_lower_bound name (String b "")) as Hlow.
    destruct (Z.ltb_spec (Index name (String b "")) 0) as [Hneg|Hpos]; [|lia].
    intros _. rewrite IH by lia. unfold len. cbn [String.length].
    rewrite (proj2 (Z.ltb_ge _ _)) by lia. lia.
Qed.

Lemma firstColon_after_key (key rest : string) :
  Index key ":" = -1 -> firstColon (key +:+ String ":" rest) = Some (key, rest).
Proof.
  intros Hkey. unfold firstColon. rewrite (Index_after_byte ":" key rest Hkey).
  unfold len. rewrite (proj2 (Z.ltb_ge _ _)) by lia.
  by rewrite Nat2Z.id, Nat.add_1_r, take_append, drop_append.
Qed.

Lemma length_snoc (s : string) (c : ascii) :
  String.length (s +:+ String c "") = S (String.length s).
Proof. induction s as [|d s IH]; [done|]. rewrite append_cons. cbn. by rewrite IH. Qed.

Lemma get_snoc (s : string) (c : ascii) :
  String.get (String.length s) (s +:+ String c "") = Some c.
Proof. induction s as [|d s IH]; [done|]. by rewrite append_cons. Qed.

Lemma list_of_snoc (s : string) (c : ascii) :
  list_ascii_of_string (s +:+ String c "") = (list_ascii_of_string s ++ [c])%list.
Proof. induction s as [|d s IH]; [done|]. rewrite append_cons. cbn. by rewrite IH. Qed.

Lemma dropSpace_quote (rev : bool) (q : ascii) (l : list ascii) :
  q = dquote \/ q = squote -> dropSpace rev (q :: l) = (q :: l)%list.
Proof.
  intros Hq.
  assert (isSpace1 q = false) as H1 by (by destruct Hq as [->| ->]).
  assert (forall c, isSpace2 q c = false) as H2 by (by destruct Hq as [->| ->]).
  assert (forall c, isSpace2 c q = false) as H2'.
  { intros c. unfold isSpace2. destruct Hq as [->| ->]; cbn; apply andb_false_r. }
  assert (forall c d, isSpace3 q c d = false) as H3 by (by destruct Hq as [->| ->]).
  assert (forall c d, isSpace3 c d q = false) as H3'.
  { intros c d. unfold isSpace3.
    destruct Hq as [->| ->]; cbn; by rewrite !andb_false_r. }
  cbn [dropSpace]. rewrite H1. destruct l as [|c2 [|c3 l3]]; [done|..].
  - destruct rev; by rewrite ?H2, ?H2'.
  - destruct rev; by rewrite ?H2, ?H2', ?H3, ?H3'.
Qed.

(** A value between two quote characters has no white space to trim. *)
Lemma TrimSpace_quoted (q : ascii) (text : string) :
  q = dquote \/ q = squote -> TrimSpace (quoted q text) = quoted q text.
Proof.
  intros Hq. unfold TrimSpace, quoted. cbn [list_ascii_of_string].
  rewrite dropSpace_quote by done. rewrite list_of_snoc.
  cbn [List.rev]. rewrite rev_app_distr. cbn [List.rev List.app].
  rewrite dropSpace_quote by done.
  cbn [List.rev]. rewrite rev_app_distr, rev_involutive. cbn [List.rev List.app].
  rewrite <- list_of_snoc. cbn [string_of_list_ascii].
  by rewrite string_of_list_ascii_of_string.
Qed.

Lemma TrimSpace_leading_space (s : string) : TrimSpace (String " " s) = TrimSpace s.
Proof. done. Qed.

Lemma hasQuotes_quoted (q : ascii) (text : string) : hasQuotes q (quoted q text) = true.
Proof.
  unfold hasQuotes, byteIs, quoted, len. cbn [String.length]. rewrite length_snoc.
  replace (Z.of_nat (S (S (String.length text))) - 1)
    with (Z.of_nat (S (String.length text))) by lia.
  rewrite Nat2Z.id. cbn [String.get]. rewrite get_snoc.
  change (Z.to_nat 0) with 0%nat. cbv iota. unfold byte_eqb. rewrite !Ascii.eqb_refl.
  rewrite (proj2 (Z.leb_le 2 _)) by lia.
  by rewrite (proj2 (Z.leb_le 0 (Z.of_nat _))) by lia.
Qed.

Lemma stripExpr_quoted (q : ascii) (text : string) :
  q = dquote \/ q = squote -> stripExpr (quoted q text) = Ok text.
Proof.
  intros Hq. rewrite stripExpr_spec.
  assert (loneQuote (quoted q text) = false) as ->.
  { unfold loneQuote, quoted.
    rewrite !bool_decide_eq_false_2; [done|..]; intros [= _ Heq]; by destruct text. }
  f_equal. unfold stripQuotes.
  assert (hasQuotes dquote (quoted q text) || hasQuotes squote (quoted q text) = true) as ->.
  { destruct Hq as [->| ->]; rewrite hasQuotes_quoted; [done|apply orb_true_r]. }
  unfold quoted. cbn [String.length GoStrings.drop]. rewrite length_snoc.
  cbn [Nat.sub]. rewrite Nat.sub_0_r. apply take_append.
Qed.

(** X25: a line [key: 'text'] or [key: "text"] whose key has no colon puts
    exactly [text] under the trimmed key, whatever [text] contains: colons,
    quote characters and white space inside the quotes are kept. *)
Theorem quoted_value_round_trip (q : ascii) (key text : string)
    (fileContent : gmap string string) :
  q = dquote \/ q = squote ->
  Index key ":" = -1 ->
  scanLine (key +:+ ": " +:+ quoted q text) fileContent
  = Ok (<[TrimSpace key := text]> fileContent).
Proof.
  intros Hq Hkey. rewrite scanLine_first_colon.
  change (": " +:+ quoted q text) with (String ":" (String " " (quoted q text))).
  rewrite firstColon_after_key by done.
  by rewrite TrimSpace_leading_space, TrimSpace_quoted, stripExpr_quoted.
Qed.

Lemma quoted_value_round_trip_witness :
  scanLine ("url" +:+ ": " +:+ quoted squote "http://host:80/ a") ∅
  = Ok (<[TrimSpace "url" := "http://host:80/ a"]> ∅).
Proof.
  apply (quoted_value_round_trip squote "url" "http://host:80/ a" ∅).
  - by right.
  - reflexivity.
Defined.

Lemma scanLine_no_colon (line : string) (fileContent : gmap string string) :
  Index line ":" = -1 -> scanLine line fileContent = Ok fileContent.
Proof.
  intros Hline. rewrite scanLine_first_colon. unfold firstColon. by rewrite Hline.
Qed.

(** X26: the lines without a colon play no part in the file pass: removing
    them from the file changes neither the mapping that is read nor whether
    the pass panics. *)
Theorem lines_without_colon_ignored (ls : list string)
    (fileContent : gmap string string) :
  scanLines (filter (λ line, Index line ":" <> -1) ls) fileContent
  = scanLines ls fileContent.
Proof.
  revert fileContent. induction ls as [|line ls IH]; intros fileContent; [done|].
  rewrite filter_cons. destruct (decide (Index line ":" <> -1)) as [Hcolon|Hnone].
  - cbn [scanLines]. destruct (scanLine line fileContent); [apply IH|done..].
  - cbn [scanLines]. rewrite scanLine_no_colon by (by apply dec_stable).
    apply IH.
Qed.

(** ** The two gates in front of the passes *)

Lemma isHelpRequested_elem_of (args : list string) :
  isHelpRequested args = true <-> "-help" ∈ args \/ "--help" ∈ args.
Proof.
  induction args as [|arg args IH]; cbn [isHelpRequested].
  - split; [done|]. by intros [?%elem_of_nil|?%elem_of_nil].
  - rewrite !elem_of_cons. repeat case_decide; subst; [tauto..|].
    rewrite IH. split; [tauto|].
    intros [[Heq|Hin]|[Heq|Hin]]; [|tauto| |tauto]; congruence.
Qed.

Lemma mageCommandGiven_elem_of (args : list string) :
  mageCommandGiven args = true <-> "-l" ∈ args \/ "-h" ∈ args.
Proof.
  induction args as [|arg args IH]; cbn [mageCommandGiven].
  - split; [done|]. by intros [?%elem_of_nil|?%elem_of_nil].
  - rewrite !elem_of_cons.
    destruct (HasPrefix arg argPrefix && contains defaultMageCommands arg) eqn:Hgate.
    + apply andb_true_iff in Hgate as [_ Hin%contains_elem_of].
      apply elem_of_cons in Hin as [->|Hin]; [tauto|].
      apply elem_of_cons in Hin as [->|Hin]; [tauto|]. by apply elem_of_nil in Hin.
    + rewrite IH. split; [tauto|].
      intros [[Heq|Hin]|[Heq|Hin]]; [|tauto| |tauto]; subst arg; done.
Qed.

Section Gates.
Context `{External}.

(** X27: with [-l] or [-h] among the arguments, and no request for help,
    [Load] returns nil and leaves its argument and the package state as they
    were, whatever the argument is: nothing is assigned, no required field is
    checked, a value that is no pointer to a record is not reported and a nil
    interface does not panic. *)
Theorem Load_mage_command p g (c : Config) file :
  isHelpRequested (Args p) = false ->
  "-l" ∈ Args p \/ "-h" ∈ Args p ->
  Load p g c file = Return None c g.
Proof.
  intros Hhelp Hgate%mageCommandGiven_elem_of. unfold Load.
  rewrite Hhelp, Hgate. by destruct (isLoaded g).
Qed.

(** X28: [Load] ends the process in one case only, with status 0: when
    [-help] or [--help] is among the arguments and the argument has an
    element type that is a record.  The latch and the Mage commands do not
    come into it. *)
Theorem Load_exit p g (c : Config) file code :
  Load p g c file = Exit code <->
  code = 0
  /\ ("-help" ∈ Args p \/ "--help" ∈ Args p)
  /\ (c = ElemStruct \/ exists cfg, c = PtrStruct cfg).
Proof.
  rewrite <- isHelpRequested_elem_of. unfold Load.
  destruct (isHelpRequested (Args p)).
  - destruct c as [cfg| | |]; cbn [printUsageAndExit]; (split; [intros Hexit|]).
    + injection Hexit as <-. eauto 6.
    + by intros (-> & _).
    + done.
    + by intros (_ & _ & [?|[? ?]]).
    + injection Hexit as <-. eauto.
    + by intros (-> & _).
    + done.
    + by intros (_ & _ & [?|[? ?]]).
  - split; [|by intros (_ & ? & _)].
    destruct (isLoaded g); [done|]. destruct (mageCommandGiven (Args p)); [done|].
    destruct c as [cfg| | |]; try done.
    by destruct (loadPasses p cfg file) as [[? ?] [| |]].
Qed.

End Gates.

Lemma Load_mage_command_witness :
  Load (testProcess ["-l"] [] noFiles) fresh NilConfig "config.yaml"
  = Return None NilConfig fresh.
Proof.
  apply (Load_mage_command (testProcess ["-l"] [] noFiles) fresh NilConfig
           "config.yaml").
  - reflexivity.
  - left. apply list_elem_of_lookup. exists 1%nat. reflexivity.
Defined.
